(** * KNNEngineSearch: result cache and statistics in front of a vector database

  A shallow embedding of [src/search/knn_search.ts].  The class keeps an LRU
  cache of search results keyed by a string fingerprint of the request, a few
  running counters, and delegates every cache miss to an external
  [PartitionedVectorDB].

  Conventions of the embedding:
  - JavaScript arrays are objects with identity.  The result arrays live in a
    [heap] (a list of arrays, a location is an index); [[...a]] allocates a
    new location holding the same elements.  The elements themselves are
    kept as values of an opaque type.
  - The counters are integers ([Z]); times are rationals ([Q]), so the
    rounding of IEEE doubles is not part of the model.
  - One call runs from start to end: the interleaving of several pending
    calls at the [await] is not modelled.  The external calls a run makes
    (timer, backend, console) are recorded, in order, in its [trace]. *)

From Stdlib Require Import ZArith QArith Lia Ascii.
From stdpp Require Import base list strings pretty.

Local Close Scope Q_scope.
Local Open Scope Z_scope.

(** ** The result cache *)

Module LRUCache.
Section Cache.
Context {V : Type}.

(** Modelled from the spec: [LRUCache] of the npm package [lru-cache] is
    imported by the source but is not part of it.  Following section 4.2:
    a capacity-bounded key/value store in which an insertion or an access
    makes the entry the most recently used one, and an insertion of a new
    key at capacity first evicts the least recently used entry.  [entries]
    is kept in recency order, most recently used first.  The defensive
    copies that section 4.2 mentions are made by [findNearest] in the
    source, and are modelled there. *)
Record t : Type := mk { max : nat; entries : list (string * V) }.

Definition new (capacity : nat) : t := mk capacity [].

Fixpoint find (k : string) (l : list (string * V)) : option V :=
  match l with
  | [] => None
  | (k', v) :: l' => if decide (k' = k) then Some v else find k l'
  end.

Fixpoint remove (k : string) (l : list (string * V)) : list (string * V) :=
  match l with
  | [] => []
  | (k', v) :: l' => if decide (k' = k) then remove k l' else (k', v) :: remove k l'
  end.

(** [get]: the stored value, which becomes the most recently used entry. *)
Definition get (k : string) (c : t) : option V * t :=
  match find k (entries c) with
  | Some v => (Some v, mk (max c) ((k, v) :: remove k (entries c)))
  | None => (None, c)
  end.

(** [set]: a present key is overwritten and becomes most recently used; a
    new key at capacity evicts the last entry of the recency order first. *)
Definition set (k : string) (v : V) (c : t) : t :=
  match find k (entries c) with
  | Some _ => mk (max c) ((k, v) :: remove k (entries c))
  | None =>
      if decide (max c <= length (entries c))%nat
      then mk (max c) ((k, v) :: removelast (entries c))
      else mk (max c) ((k, v) :: entries c)
  end.

Definition clear (c : t) : t := mk (max c) [].

Definition size (c : t) : nat := length (entries c).

Definition keys (c : t) : list string := (entries c).*1.

Definition values (c : t) : list V := (entries c).*2.


(** The operations of a client, to speak of sequences of them. *)
Inductive op : Type :=
| OpGet (k : string)
| OpSet (k : string) (v : V)
| OpClear.

Definition step (c : t) (o : op) : t :=
  match o with
  | OpGet k => (get k c).2
  | OpSet k v => set k v c
  | OpClear => clear c
  end.

Definition run (ops : list op) (c : t) : t := foldl step c ops.
End Cache.
Arguments t : clear implicits.
Arguments op : clear implicits.
End LRUCache.

(** ** Arrays with identity *)

Definition loc : Type := nat.

(** The array objects allocated so far; an array is addressed by its index. *)
Abbreviation heap_of A := (list (list A)).

Section Heap.
Context {A : Type}.
Implicit Type h : heap_of A.

(** The elements of the array at [l] (of no array: none; every location the
    model reads has been allocated). *)
Definition read h (l : loc) : list A := default [] (h !! l).

(** A new array object holding [a]. *)
Definition alloc h (a : list A) : loc * heap_of A := (length h, h ++ [a]).

(** [[...x]]: a new array object with the elements of the array at [l]. *)
Definition spread h (l : loc) : loc * heap_of A := alloc h (read h l).

(** What a holder of the reference [l] can do to that array: replace its
    elements by any others ([push], [pop], [splice], [a[i] = x], ...). *)
Definition mutate h (l : loc) (a : list A) : heap_of A := <[l := a]> h.
End Heap.

(** ** The search engine *)

Section Engine.
(** The values of the source's imported types, and the built-in operations
    on numbers that the source calls. *)
Context {num : Type}.                        (* a JavaScript number *)
Variable fround : num -> num.                (* storing a number in a Float32Array *)
Variable toFixed : nat -> num -> string.     (* Number.prototype.toFixed(digits) *)
Context {SearchFilter : Type}.               (* the value of options.filter *)
Variable filter_toString : SearchFilter -> string.
Context {SearchResult : Type}.
Context {Error : Type}.                      (* what a rejected backend call carries *)
Context {OptionValue : Type}.                (* the value of any other search option *)

(** [Vector]: a plain array of numbers or a [Float32Array]. *)
Inductive Vector : Type :=
| NumberArray (xs : list num)
| Float32Array (xs : list num).

(** [SearchOptions]: the two fields the source reads, and whatever other
    fields the object has, by name.  The source tests [options.filter] and
    [options.probes] for their truth value: [filter] is [Some f] for a filter
    that is there (an object or a function, which is never falsy); [probes]
    is [Some p] for a number [p], and the test on it is spelled out in
    [probesInfo]. *)
Record SearchOptions : Type := {
  filter : option SearchFilter;
  probes : option Z;
  others : list (string * OptionValue);
}.

Definition no_options : SearchOptions := {| filter := None; probes := None; others := [] |}.

(** [KNNOptionsPartitioned], as given to the constructor and as kept. *)
Record KNNOptionsPartitioned : Type := {
  given_metric : option string;
  given_cacheResults : option bool;
}.

Record KNNOptions : Type := { metric : string; cacheResults : bool }.

Record Stats : Type := {
  calls : Z;
  totalTime : Q;
  lastSearchTime : Q;
  cacheHits : Z;
  cacheMisses : Z;
}.

(** The object the source passes to [db.findNearest]; [db_others] lists the
    fields it has besides the three named ones. *)
Record DbOptions : Type := {
  db_filter : option SearchFilter;
  db_distanceMetric : string;
  db_probes : option Z;
  db_others : list (string * OptionValue);
}.

(** The external collaborator: [PartitionedVectorDB.findNearest] resolves
    with a result array or rejects, and may change its own state.  It is
    given by the elements of the array it resolves with; the array itself is
    taken to be a new object (see [delegate]). *)
Context {DB : Type}.
Variable db_findNearest : list num -> Z -> DbOptions -> DB -> (Error + list SearchResult) * DB.

(** The fields of the class, the state of the database it refers to, and the
    arrays allocated so far. *)
Record State : Type := {
  options : KNNOptions;
  resultCache : LRUCache.t loc;
  stats : Stats;
  db : DB;
  heap : heap_of SearchResult;
}.

Inductive Event : Type :=
| TimerStart (label : string)
| TimerGetElapsed (label : string)
| TimerStop (label : string)
| DbFindNearest (query : list num) (k : Z) (o : DbOptions)
| ConsoleError (msg : string) (e : Error).

Inductive Completion : Type :=
| Return (results : loc)
| Throw (e : Error).

Record Outcome : Type := { result : Completion; trace : list Event }.

Definition defaults : KNNOptions := {| metric := "euclidean"; cacheResults := true |}.

Definition constructor (d : DB) (o : KNNOptionsPartitioned) : State :=
  {| options := {| metric := default (metric defaults) (given_metric o);
                   cacheResults := default (cacheResults defaults) (given_cacheResults o) |};
     resultCache := LRUCache.new 1000;
     stats := {| calls := 0; totalTime := 0%Q; lastSearchTime := 0%Q;
                 cacheHits := 0; cacheMisses := 0 |};
     db := d;
     heap := [] |}.

(** *** The cache key *)

Definition queryHash (query : list num) : string :=
  String.concat "," (toFixed 4 <$> query).

Definition filterInfo (o : SearchOptions) : string :=
  match filter o with
  | Some f => "filterHash:" +:+ pretty (String.length (filter_toString f))
  | None => "noFilter"
  end.

(** [options.probes ? ... : ""]: the test is on the truth value of a
    number, so an absent [probes] and the number 0 take the same branch. *)
Definition probesInfo (o : SearchOptions) : string :=
  match probes o with
  | Some p => if decide (p = 0) then "" else "probes" +:+ pretty p
  | None => ""
  end.

Definition _getCacheKey (cfg : KNNOptions) (query : list num) (k : Z) (o : SearchOptions) : string :=
  queryHash query +:+ "_k" +:+ pretty k +:+ "_" +:+ metric cfg +:+ "_" +:+
  filterInfo o +:+ "_" +:+ probesInfo o.

(** *** findNearest *)

Definition timerLabel : string := "knn_partitioned_search".

Definition typedQuery (query : Vector) : list num :=
  match query with
  | Float32Array xs => xs
  | NumberArray xs => fround <$> xs
  end.

Definition dbOptions (cfg : KNNOptions) (o : SearchOptions) : DbOptions :=
  {| db_filter := filter o;
     db_distanceMetric := metric cfg;
     db_probes := probes o;
     db_others := [] |}.

Definition count_call (st : Stats) : Stats :=
  {| calls := calls st + 1; totalTime := totalTime st; lastSearchTime := lastSearchTime st;
     cacheHits := cacheHits st; cacheMisses := cacheMisses st |}.

Definition count_hit (st : Stats) : Stats :=
  {| calls := calls st; totalTime := totalTime st; lastSearchTime := lastSearchTime st;
     cacheHits := cacheHits st + 1; cacheMisses := cacheMisses st |}.

Definition count_miss (st : Stats) : Stats :=
  {| calls := calls st; totalTime := totalTime st; lastSearchTime := lastSearchTime st;
     cacheHits := cacheHits st; cacheMisses := cacheMisses st + 1 |}.

Definition record_time (searchTime : Q) (st : Stats) : Stats :=
  {| calls := calls st; totalTime := (totalTime st + searchTime)%Q; lastSearchTime := searchTime;
     cacheHits := cacheHits st; cacheMisses := cacheMisses st |}.

(** Lines 136-165: the call of the database, and what follows it.  [cache]
    and [st] are the cache and the counters as the first part left them. *)
Definition delegate (query : list num) (k : Z) (o : SearchOptions) (elapsed : Q)
    (cache : LRUCache.t loc) (st : Stats) (s : State) : Outcome * State :=
  let cfg := options s in
  let called := DbFindNearest query k (dbOptions cfg o) in
  match db_findNearest query k (dbOptions cfg o) (db s) with
  | (inl error, d) =>
      ({| result := Throw error;
          trace := [called; ConsoleError "Error during PartitionedDB findNearest:" error;
                    TimerStop timerLabel] |},
       {| options := cfg; resultCache := cache; stats := st; db := d; heap := heap s |})
  | (inr found, d) =>
      let '(results, h1) := alloc (heap s) found in
      let '(cache2, h2) :=
        if cacheResults cfg
        then let '(copy, h2) := spread h1 results in
             (LRUCache.set (_getCacheKey cfg query k o) copy cache, h2)
        else (cache, h1) in
      ({| result := Return results;
          trace := [called; TimerGetElapsed timerLabel; TimerStop timerLabel] |},
       {| options := cfg; resultCache := cache2; stats := record_time elapsed st;
          db := d; heap := h2 |})
  end.

(** [findNearest(query, k, options)].  [elapsed] is what
    [timer.getElapsed] answers when this call asks for it. *)
Definition findNearest (query : Vector) (k : Z) (o : SearchOptions) (elapsed : Q)
    (s : State) : Outcome * State :=
  let cfg := options s in
  let st := count_call (stats s) in
  let q := typedQuery query in
  let started (r : Outcome * State) : Outcome * State :=
    ({| result := result r.1; trace := TimerStart timerLabel :: trace r.1 |}, r.2) in
  if cacheResults cfg then
    let '(cachedResults, cache) := LRUCache.get (_getCacheKey cfg q k o) (resultCache s) in
    match cachedResults with
    | Some cached =>
        let '(copy, h) := spread (heap s) cached in
        ({| result := Return copy;
            trace := [TimerStart timerLabel; TimerGetElapsed timerLabel; TimerStop timerLabel] |},
         {| options := cfg; resultCache := cache;
            stats := record_time elapsed (count_hit st); db := db s; heap := h |})
    | None => started (delegate q k o elapsed cache (count_miss st) s)
    end
  else started (delegate q k o elapsed (resultCache s) st s).

(** The default values of the parameters: [k = 10], [options = {}]. *)
Definition findNearest_defaults (query : Vector) (k : option Z) (o : option SearchOptions)
    : Q -> State -> Outcome * State :=
  findNearest query (default 10 k) (default no_options o).

(** *** getStats, clearCache, close *)

Record KNNStatsPartitioned : Type := {
  snap_calls : Z;
  snap_totalTime : Q;
  avgTime : Q;
  snap_lastSearchTime : Q;
  snap_cacheHits : Z;
  snap_cacheMisses : Z;
  cachedResultsCount : nat;
  snap_options : KNNOptions;
}.

Definition getStats (s : State) : KNNStatsPartitioned :=
  {| snap_calls := calls (stats s);
     snap_totalTime := totalTime (stats s);
     avgTime := if decide (calls (stats s) > 0)
                then (totalTime (stats s) / inject_Z (calls (stats s)))%Q
                else 0%Q;
     snap_lastSearchTime := lastSearchTime (stats s);
     snap_cacheHits := cacheHits (stats s);
     snap_cacheMisses := cacheMisses (stats s);
     cachedResultsCount := LRUCache.size (resultCache s);
     snap_options := options s |}.

Definition clearCache (s : State) : State :=
  {| options := options s; resultCache := LRUCache.clear (resultCache s);
     stats := stats s; db := db s; heap := heap s |}.

Definition close (s : State) : State := clearCache s.

(** *** Sequences of calls *)

Record Call : Type := {
  call_query : Vector;
  call_k : Z;
  call_options : SearchOptions;
  call_elapsed : Q;
}.

Definition perform (c : Call) (s : State) : Outcome * State :=
  findNearest (call_query c) (call_k c) (call_options c) (call_elapsed c) s.

Fixpoint run (cs : list Call) (s : State) : list Outcome * State :=
  match cs with
  | [] => ([], s)
  | c :: cs' =>
      let '(out, s1) := perform c s in
      let '(outs, s2) := run cs' s1 in
      (out :: outs, s2)
  end.

(** The calls of the database in a trace, in order. *)
Fixpoint dbCalls (t : list Event) : list (list num * Z * DbOptions) :=
  match t with
  | [] => []
  | DbFindNearest q k o :: t' => (q, k, o) :: dbCalls t'
  | _ :: t' => dbCalls t'
  end.

(** *** The statements' vocabulary *)

(** Every option of the call is in the object given to the database. *)
Definition passes_all_options (o : SearchOptions) (req : DbOptions) : Prop :=
db_filter req = filter o /\ db_probes req = probes o /\ db_others req = others o.

(** The four counters that only grow. *)
Definition stats_le (a b : Stats) : Prop :=
calls a <= calls b /\ (totalTime a <= totalTime b)%Q /\
cacheHits a <= cacheHits b /\ cacheMisses a <= cacheMisses b.

Definition accounted (st : Stats) : Prop := cacheHits st + cacheMisses st = calls st.

(** Every array the cache refers to has been allocated. *)
Definition cache_allocated (s : State) : Prop :=
Forall (fun l => (l < length (heap s))%nat) (LRUCache.values (resultCache s)).

Definition with_heap (h : heap_of SearchResult) (s : State) : State :=
{| options := options s; resultCache := resultCache s; stats := stats s; db := db s; heap := h |}.

(** The elements of the array a call returned, read when it returns. *)
Definition returned (out : Outcome) (s : State) : option (list SearchResult) :=
match result out with
| Return r => Some (read (heap s) r)
| Throw _ => None
end.

(** A caller calls [findNearest], and may at any time change an array that an
earlier call handed to it: [Mutate i a] gives the elements [a] to the array
returned by the [i]-th call that returned one. *)
Inductive Action : Type :=
| Invoke (c : Call)
| Mutate (i : nat) (a : list SearchResult).

Fixpoint interact (acts : list Action) (held : list loc) (s : State)
  : list (option (list SearchResult)) * State :=
match acts with
| [] => ([], s)
| Invoke c :: acts' =>
    let '(out, s1) := perform c s in
    let held1 := match result out with Return r => held ++ [r] | Throw _ => held end in
    let '(seen, s2) := interact acts' held1 s1 in
    (returned out s1 :: seen, s2)
| Mutate i a :: acts' =>
    match held !! i with
    | Some r => interact acts' held (with_heap (mutate (heap s) r a) s)
    | None => interact acts' held s
    end
end.

(** The arrays in [held] are allocated, and none of them is one the cache
refers to. *)
Definition held_apart (held : list loc) (s : State) : Prop :=
cache_allocated s /\
Forall (fun r => (r < length (heap s))%nat /\ r ∉ LRUCache.values (resultCache s)) held.

(** Two states that differ at most in arrays the cache does not refer to. *)
Definition agree_on_cache (s t : State) : Prop :=
options s = options t /\ resultCache s = resultCache t /\ stats s = stats t /\
db s = db t /\ length (heap s) = length (heap t) /\
forall l, l ∈ LRUCache.values (resultCache t) -> read (heap s) l = read (heap t) l.

Definition invocations (acts : list Action) : list Action :=
List.filter (fun a => match a with Invoke _ => true | Mutate _ _ => false end) acts.

(** The cache of a state that a new engine can reach: its arrays are
allocated, no key is stored twice, it is within its capacity, and it holds
no more entries than misses were counted. *)
Definition cache_wellformed (s : State) : Prop :=
cache_allocated s /\
NoDup (LRUCache.keys (resultCache s)) /\
(LRUCache.size (resultCache s) <= LRUCache.max (resultCache s))%nat /\
Z.of_nat (LRUCache.size (resultCache s)) <= cacheMisses (stats s).

(** *** The public operations, in sequence *)

Definition with_db (d : DB) (s : State) : State :=
{| options := options s; resultCache := resultCache s; stats := stats s; db := d; heap := heap s |}.

(** What a user of the class can ask of it ([getStats] only reads). *)
Inductive Request : Type :=
| DoFindNearest (c : Call)
| DoClearCache
| DoClose.

Definition serve (r : Request) (s : State) : option Outcome * State :=
match r with
| DoFindNearest c => let '(out, s1) := perform c s in (Some out, s1)
| DoClearCache => (None, clearCache s)
| DoClose => (None, close s)
end.

Fixpoint session (rs : list Request) (s : State) : list (option Outcome) * State :=
match rs with
| [] => ([], s)
| r :: rs' =>
    let '(out, s1) := serve r s in
    let '(outs, s2) := session rs' s1 in
    (out :: outs, s2)
end.

(** No call of the session called the database. *)
Definition quiet (outs : list (option Outcome)) : Prop :=
Forall (fun out => match out with
                   | Some out => dbCalls (trace out) = []
                   | None => True
                   end) outs.

Definition isReturn (out : Outcome) : bool :=
match result out with Return _ => true | Throw _ => false end.

(** How often the database was called in the course of some calls. *)
Definition backendCalls (outs : list Outcome) : nat :=
length (flat_map (fun out => dbCalls (trace out)) outs).

(** The sum of the times measured by the calls that returned. *)
Fixpoint returned_time (cs : list Call) (outs : list Outcome) : Q :=
match cs, outs with
| c :: cs', out :: outs' =>
    ((if isReturn out then call_elapsed c else 0) + returned_time cs' outs')%Q
| _, _ => 0%Q
end.

(** The time measured by the last call that returned, [before] if none did. *)
Fixpoint last_returned_time (before : Q) (cs : list Call) (outs : list Outcome) : Q :=
match cs, outs with
| c :: cs', out :: outs' =>
    last_returned_time (if isReturn out then call_elapsed c else before) cs' outs'
| _, _ => before
end.

(** The three courses a call can take, by its trace. *)
Definition hit_trace : list Event :=
[TimerStart timerLabel; TimerGetElapsed timerLabel; TimerStop timerLabel].

Definition miss_trace (q : list num) (k : Z) (req : DbOptions) : list Event :=
[TimerStart timerLabel; DbFindNearest q k req; TimerGetElapsed timerLabel; TimerStop timerLabel].

Definition failure_trace (q : list num) (k : Z) (req : DbOptions) (e : Error) : list Event :=
[TimerStart timerLabel; DbFindNearest q k req;
 ConsoleError "Error during PartitionedDB findNearest:" e; TimerStop timerLabel].

End Engine.

Arguments Vector : clear implicits.
Arguments SearchOptions : clear implicits.
Arguments DbOptions : clear implicits.
Arguments State : clear implicits.
Arguments Event : clear implicits.
Arguments Completion : clear implicits.
Arguments Outcome : clear implicits.
Arguments Call : clear implicits.
Arguments Action : clear implicits.
Arguments Request : clear implicits.

(** ** An instance to run the definitions on

    Numbers are integers (a [Float32Array] stores them unchanged while they
    are below 2^24), a filter is given by its source text, a result is an
    identifier with a distance.  The database counts the calls it served; it
    rejects a [k] that is not positive and otherwise answers with [k] and
    the probes it was given. *)

Module Demo.

Definition fround (x : Z) : Z := x.

Definition toFixed (digits : nat) (x : Z) : string :=
match digits with
| O => pretty x
| S _ => pretty x +:+ "." +:+ String.concat "" (replicate digits "0")
end.

Definition filter_toString (f : string) : string := f.

Definition db_findNearest (q : list Z) (k : Z) (o : DbOptions string bool) (served : nat)
  : (string + list (string * Z)) * nat :=
if decide (k <= 0) then (inl "k must be positive", S served)
else (inr [("doc", k); ("probes", default (-1) (db_probes o))], S served).

(** A database that rejects the first call it gets and answers the later
    ones. *)
Definition flaky_db (q : list Z) (k : Z) (o : DbOptions string bool) (served : nat)
  : (string + list (string * Z)) * nat :=
match served with
| O => (inl "not ready", 1%nat)
| S _ => (inr [("doc", k)], S served)
end.

Definition findNearest_flaky := findNearest fround toFixed filter_toString flaky_db.

Definition findNearest := findNearest fround toFixed filter_toString db_findNearest.

Definition getCacheKey := _getCacheKey (OptionValue := bool) toFixed filter_toString.

Definition new_engine : State (string * Z) nat :=
constructor 0%nat {| given_metric := None; given_cacheResults := None |}.

Definition Q1 : Vector Z := NumberArray [1; 2; 3].

Definition plain : SearchOptions string bool := no_options.

Definition with_probes (p : Z) : SearchOptions string bool :=
{| filter := None; probes := Some p; others := [] |}.

Definition with_filter (f : string) : SearchOptions string bool :=
{| filter := Some f; probes := None; others := [] |}.

Definition with_metadata : SearchOptions string bool :=
{| filter := None; probes := None; others := [("includeMetadata", true)] |}.

Definition answer (k p : Z) : list (string * Z) := [("doc", k); ("probes", p)].

Definition call (k : Z) (o : SearchOptions string bool) (elapsed : Q) : Call Z string bool :=
{| call_query := Q1; call_k := k; call_options := o; call_elapsed := elapsed |}.

Definition run := run fround toFixed filter_toString db_findNearest.

Definition interact := interact fround toFixed filter_toString db_findNearest.

Definition session := session fround toFixed filter_toString db_findNearest.

(** An engine whose cache has capacity 2 and is full, as the calls with
    [k = 6] and then [k = 7] leave it. *)
Definition full_engine : State (string * Z) nat :=
{| options := defaults;
   resultCache := LRUCache.mk 2 [(getCacheKey defaults [1; 2; 3] 7 plain, 3%nat);
                                 (getCacheKey defaults [1; 2; 3] 6 plain, 1%nat)];
   stats := {| calls := 2; totalTime := 1; lastSearchTime := 1 # 2;
               cacheHits := 0; cacheMisses := 2 |};
   db := 2%nat;
   heap := [answer 6 (-1); answer 6 (-1); answer 7 (-1); answer 7 (-1)] |}.

Definition Q2 : Vector Z := Float32Array [1; 2; 3].

End Demo.

(** * Properties *)

(** ** The result cache *)

Section CacheFacts.
Context {V : Type}.
Implicit Types (c : LRUCache.t V) (l : list (string * V)) (k : string) (v : V).

Lemma lru_remove_length k l : (length (LRUCache.remove k l) <= length l)%nat.
Proof.
  induction l as [|[k' v'] l IH]; simpl; [lia|].
  case_decide; simpl; lia.
Qed.

Lemma lru_remove_length_found k l v :
  LRUCache.find k l = Some v -> (length (LRUCache.remove k l) < length l)%nat.
Proof.
  induction l as [|[k' v'] l IH]; simpl; [discriminate|].
  case_decide; simpl; intros Hf.
  - pose proof (lru_remove_length k l). lia.
  - specialize (IH Hf). lia.
Qed.

Lemma lru_removelast_length {A : Type} (l : list A) :
  length (removelast l) = pred (length l).
Proof.
  induction l as [|a [|b l] IH]; simpl in *; [done..|].
  by rewrite IH.
Qed.

Lemma lru_find_value k l v : LRUCache.find k l = Some v -> v ∈ l.*2.
Proof.
  induction l as [|[k' v'] l IH]; simpl; [discriminate|].
  case_decide.
  - intros [= ->]. apply list_elem_of_here.
  - intros Hf. apply list_elem_of_further. auto.
Qed.

Lemma lru_remove_values k l x :
  x ∈ (LRUCache.remove k l).*2 -> x ∈ l.*2.
Proof.
  induction l as [|[k' v'] l IH]; simpl; [done|].
  case_decide; simpl.
  - intros Hx. apply list_elem_of_further. auto.
  - intros [->|Hx]%elem_of_cons; [apply list_elem_of_here|].
    apply list_elem_of_further. auto.
Qed.

Lemma lru_removelast_values l x : x ∈ (removelast l).*2 -> x ∈ l.*2.
Proof.
  induction l as [|[k' v'] [|b l] IH]; simpl in *.
  - done.
  - by intros ?%elem_of_nil.
  - intros [->|Hx]%elem_of_cons; [apply list_elem_of_here|].
    apply list_elem_of_further. auto.
Qed.

Lemma lru_get_found k c : (LRUCache.get k c).1 = LRUCache.find k (LRUCache.entries c).
Proof. unfold LRUCache.get. by destruct (LRUCache.find k (LRUCache.entries c)). Qed.

Lemma lru_get_miss k c :
  LRUCache.find k (LRUCache.entries c) = None -> LRUCache.get k c = (None, c).
Proof. unfold LRUCache.get. by intros ->. Qed.

Lemma lru_get_max k c : LRUCache.max (LRUCache.get k c).2 = LRUCache.max c.
Proof. unfold LRUCache.get. by destruct (LRUCache.find k (LRUCache.entries c)). Qed.

Lemma lru_get_size k c : (LRUCache.size (LRUCache.get k c).2 <= LRUCache.size c)%nat.
Proof.
  unfold LRUCache.get, LRUCache.size.
  destruct (LRUCache.find k (LRUCache.entries c)) as [v|] eqn:Hf; simpl; [|lia].
  apply lru_remove_length_found in Hf. lia.
Qed.

Lemma lru_get_values k c x :
  x ∈ LRUCache.values (LRUCache.get k c).2 -> x ∈ LRUCache.values c.
Proof.
  unfold LRUCache.get, LRUCache.values.
  destruct (LRUCache.find k (LRUCache.entries c)) as [v|] eqn:Hf; simpl; [|done].
  intros [->|Hx]%elem_of_cons.
  - by eapply lru_find_value.
  - by eapply lru_remove_values.
Qed.

(** A hit puts the entry in front: it is the most recently used one. *)
Lemma lru_get_front k c v :
  LRUCache.find k (LRUCache.entries c) = Some v ->
  head (LRUCache.entries (LRUCache.get k c).2) = Some (k, v).
Proof. unfold LRUCache.get. by intros ->. Qed.

Lemma lru_set_max k v c : LRUCache.max (LRUCache.set k v c) = LRUCache.max c.
Proof.
  unfold LRUCache.set.
  destruct (LRUCache.find k (LRUCache.entries c)); [done|]. by case_decide.
Qed.

Lemma lru_set_size k v c :
  (0 < LRUCache.max c)%nat ->
  (LRUCache.size c <= LRUCache.max c)%nat ->
  (LRUCache.size (LRUCache.set k v c) <= LRUCache.max c)%nat.
Proof.
  unfold LRUCache.set, LRUCache.size. intros Hpos Hle.
  destruct (LRUCache.find k (LRUCache.entries c)) as [w|] eqn:Hf; simpl.
  - apply lru_remove_length_found in Hf. lia.
  - case_decide; simpl; [|lia].
    rewrite lru_removelast_length. lia.
Qed.

Lemma lru_set_values k v c x :
  x ∈ LRUCache.values (LRUCache.set k v c) -> x = v \/ x ∈ LRUCache.values c.
Proof.
  unfold LRUCache.set, LRUCache.values.
  destruct (LRUCache.find k (LRUCache.entries c)) as [w|] eqn:Hf; simpl.
  - intros [->|Hx]%elem_of_cons; [by left|]. right. by eapply lru_remove_values.
  - case_decide; simpl; intros [->|Hx]%elem_of_cons; auto.
    right. by apply lru_removelast_values.
Qed.

Lemma lru_set_find k v c :
  LRUCache.find k (LRUCache.entries (LRUCache.set k v c)) = Some v.
Proof.
  unfold LRUCache.set.
  destruct (LRUCache.find k (LRUCache.entries c)); simpl; [by case_decide|].
  case_decide; simpl; by case_decide.
Qed.





End CacheFacts.

(** ** The engine *)

Section Properties.
Context {num SearchFilter SearchResult Error OptionValue DB : Type}.
Context (fround : num -> num) (toFixed : nat -> num -> string).
Context (filter_toString : SearchFilter -> string).
Context (db_findNearest :
  list num -> Z -> DbOptions SearchFilter OptionValue -> DB -> (Error + list SearchResult) * DB).

Local Abbreviation findNearest' := (findNearest fround toFixed filter_toString db_findNearest).
Local Abbreviation perform' := (perform fround toFixed filter_toString db_findNearest).
Local Abbreviation run' := (run fround toFixed filter_toString db_findNearest).
Local Abbreviation interact' := (interact fround toFixed filter_toString db_findNearest).
Local Abbreviation key' := (_getCacheKey toFixed filter_toString).
Local Abbreviation State' := (State SearchResult DB).
Local Abbreviation Options' := (SearchOptions SearchFilter OptionValue).

Implicit Types (s : State') (o : Options') (query : Vector num) (k : Z) (elapsed : Q).

(** Case analysis along the branches of [findNearest]. *)
Ltac branches :=
  unfold findNearest, delegate, spread, alloc; simpl;
  repeat match goal with
  | |- context [cacheResults ?c] => destruct (cacheResults c) eqn:?; simpl
  | |- context [LRUCache.get ?k ?c] => destruct (LRUCache.get k c) as [[?|] ?] eqn:?; simpl
  | |- context [db_findNearest ?q ?k ?o ?d] =>
      destruct (db_findNearest q k o d) as [[?|?] ?] eqn:?; simpl
  end.

Lemma findNearest_options query k o elapsed s :
  options (findNearest' query k o elapsed s).2 = options s.
Proof. branches; reflexivity. Qed.

Lemma stats_le_refl (st : Stats) : stats_le st st.
Proof. unfold stats_le. repeat split; try lia. apply Qle_refl. Qed.

Lemma stats_le_trans (a b c : Stats) : stats_le a b -> stats_le b c -> stats_le a c.
Proof.
  unfold stats_le. intros (?&?&?&?) (?&?&?&?).
  repeat split; try lia. eapply Qle_trans; eassumption.
Qed.

Lemma record_time_le elapsed (st : Stats) :
  (0 <= elapsed)%Q -> stats_le st (record_time elapsed st).
Proof.
  unfold stats_le, record_time. simpl. intros He.
  repeat split; try lia.
  rewrite <- (Qplus_0_r (totalTime st)) at 1. by apply Qplus_le_r.
Qed.

Lemma findNearest_stats_le query k o elapsed s :
  (0 <= elapsed)%Q -> stats_le (stats s) (stats (findNearest' query k o elapsed s).2).
Proof.
  intros He. branches;
    try (eapply stats_le_trans; [|by apply record_time_le]);
    unfold stats_le; simpl; repeat split; try lia; apply Qle_refl.
Qed.

Lemma findNearest_accounted query k o elapsed s :
  cacheResults (options s) = true ->
  accounted (stats s) -> accounted (stats (findNearest' query k o elapsed s).2).
Proof.
  unfold accounted. intros Hc Hacc. branches; try congruence; lia.
Qed.

Lemma run_options (cs : list (Call num SearchFilter OptionValue)) s :
  options (run' cs s).2 = options s.
Proof.
  revert s. induction cs as [|c cs IH]; intros s; simpl; [done|].
  destruct (perform' c s) as [out s1] eqn:Hp.
  specialize (IH s1). destruct (run' cs s1) as [outs s2]. simpl in *.
  rewrite IH. replace s1 with (perform' c s).2 by (by rewrite Hp).
  apply findNearest_options.
Qed.

(** C2. Over any sequence of calls whose measured times are not negative,
    [calls], [totalTime], [cacheHits] and [cacheMisses] do not decrease; and
    with caching enabled, [cacheHits + cacheMisses = calls], once true, is
    true after every further call, returned or failed. It is true of a new
    engine. *)
Theorem stats_monotone_and_accounted (cs : list (Call num SearchFilter OptionValue)) s :
  Forall (fun c => (0 <= call_elapsed c)%Q) cs ->
  stats_le (stats s) (stats (run' cs s).2) /\
  (cacheResults (options s) = true -> accounted (stats s) ->
   forall n, accounted (stats (run' (take n cs) s).2)) /\
  (forall (d : DB) given, accounted (stats (constructor d given : State'))).
Proof.
  intros Hpos. split; [|split].
  - revert s. induction Hpos as [|c cs Hc _ IH]; intros s; simpl.
    + apply stats_le_refl.
    + destruct (perform' c s) as [out s1] eqn:Hp.
      specialize (IH s1). destruct (run' cs s1) as [outs s2]. simpl in *.
      eapply stats_le_trans; [|exact IH].
      replace s1 with (perform' c s).2 by (by rewrite Hp).
      by apply findNearest_stats_le.
  - intros Hcache Hacc n. clear Hpos. revert s n Hcache Hacc.
    induction cs as [|c cs IH]; intros s n Hcache Hacc.
    + by rewrite take_nil.
    + destruct n as [|n]; simpl; [done|].
      destruct (perform' c s) as [out s1] eqn:Hp.
      assert (s1 = (perform' c s).2) as Hs1 by (by rewrite Hp).
      specialize (IH s1 n). destruct (run' (take n cs) s1) as [outs s2]. simpl in *.
      apply IH; rewrite Hs1; unfold perform.
      * by rewrite findNearest_options.
      * by apply findNearest_accounted.
  - intros d given. reflexivity.
Qed.

(** *** What one call does *)

Lemma findNearest_dbCalls query k o elapsed s :
  let out := (findNearest' query k o elapsed s).1 in
  dbCalls (trace out) = [] \/
  dbCalls (trace out) = [(typedQuery fround query, k, dbOptions (options s) o)].
Proof. branches; auto. Qed.

Lemma findNearest_hit query k o elapsed s cached :
  cacheResults (options s) = true ->
  LRUCache.find (key' (options s) (typedQuery fround query) k o)
    (LRUCache.entries (resultCache s)) = Some cached ->
  let r := findNearest' query k o elapsed s in
  result r.1 = Return (length (heap s)) /\
  dbCalls (trace r.1) = [] /\
  heap r.2 = heap s ++ [read (heap s) cached] /\
  db r.2 = db s /\
  stats r.2 = record_time elapsed (count_hit (count_call (stats s))) /\
  resultCache r.2 = (LRUCache.get (key' (options s) (typedQuery fround query) k o) (resultCache s)).2.
Proof.
  intros Hc Hf. unfold findNearest. rewrite Hc.
  unfold LRUCache.get. rewrite Hf. simpl. auto 10.
Qed.

Lemma findNearest_reaches_backend query k o elapsed s :
  (cacheResults (options s) = true ->
   LRUCache.find (key' (options s) (typedQuery fround query) k o)
     (LRUCache.entries (resultCache s)) = None) ->
  findNearest' query k o elapsed s =
  let r := delegate toFixed filter_toString db_findNearest (typedQuery fround query) k o elapsed
             (resultCache s)
             (if cacheResults (options s) then count_miss (count_call (stats s))
              else count_call (stats s)) s in
  ({| result := result r.1; trace := TimerStart timerLabel :: trace r.1 |}, r.2).
Proof.
  intros Hmiss. unfold findNearest.
  destruct (cacheResults (options s)) eqn:Hc; [|done].
  by rewrite lru_get_miss by auto.
Qed.

(** A call that does not hit the cache calls the database, once. *)
Lemma findNearest_miss_dbCalls query k o elapsed s :
  (cacheResults (options s) = true ->
   LRUCache.find (key' (options s) (typedQuery fround query) k o)
     (LRUCache.entries (resultCache s)) = None) ->
  dbCalls (trace (findNearest' query k o elapsed s).1) =
  [(typedQuery fround query, k, dbOptions (options s) o)].
Proof.
  intros Hmiss.
  destruct (findNearest_dbCalls query k o elapsed s) as [Hnone|Hone]; [|done].
  rewrite findNearest_reaches_backend in Hnone by done.
  unfold delegate in Hnone. simpl in Hnone.
  destruct (db_findNearest _ _ _ (db s)) as [[err|found] d]; simpl in Hnone; [done|].
  by destruct (cacheResults (options s)).
Qed.

(** C5. When the call of the database fails, the call fails with the same
    error, the cache and the arrays are what they were, and the database was
    called exactly this once. *)
Theorem backend_failure_propagated query k o elapsed s q' k' req (e : Error) :
  (q', k', req) ∈ dbCalls (trace (findNearest' query k o elapsed s).1) ->
  (db_findNearest q' k' req (db s)).1 = inl e ->
  let r := findNearest' query k o elapsed s in
  result r.1 = Throw e /\
  resultCache r.2 = resultCache s /\
  heap r.2 = heap s /\
  dbCalls (trace r.1) = [(q', k', req)].
Proof.
  intros Hcalled Hfail r. subst r.
  destruct (cacheResults (options s)) eqn:Hc.
  - destruct (LRUCache.find (key' (options s) (typedQuery fround query) k o)
                (LRUCache.entries (resultCache s))) as [cached|] eqn:Hf.
    + destruct (findNearest_hit query k o elapsed s cached Hc Hf) as (_ & Hno & _).
      rewrite Hno in Hcalled. by apply elem_of_nil in Hcalled.
    + rewrite findNearest_reaches_backend in * by auto.
      unfold delegate in *. simpl in *.
      destruct (db_findNearest _ _ _ (db s)) as [[err|found] d] eqn:Hdb; simpl in *.
      * apply list_elem_of_singleton in Hcalled. injection Hcalled as -> -> ->.
        rewrite Hdb in Hfail. simpl in Hfail. injection Hfail as ->. auto.
      * rewrite Hc in *. simpl in *.
        apply list_elem_of_singleton in Hcalled. injection Hcalled as -> -> ->.
        rewrite Hdb in Hfail. discriminate.
  - rewrite findNearest_reaches_backend in * by congruence.
    unfold delegate in *. simpl in *.
    destruct (db_findNearest _ _ _ (db s)) as [[err|found] d] eqn:Hdb; simpl in *.
    + apply list_elem_of_singleton in Hcalled. injection Hcalled as -> -> ->.
      rewrite Hdb in Hfail. simpl in Hfail. injection Hfail as ->. auto.
    + rewrite Hc in *. simpl in *.
      apply list_elem_of_singleton in Hcalled. injection Hcalled as -> -> ->.
      rewrite Hdb in Hfail. discriminate.
Qed.

(** C10. With caching enabled, a call that misses the cache and whose
    database call fails has added one to [calls] and one to [cacheMisses];
    [totalTime], [lastSearchTime] and [cacheHits] are what they were, and
    the error is thrown. *)
Theorem failed_miss_is_counted query k o elapsed s (e : Error) d :
  cacheResults (options s) = true ->
  LRUCache.find (key' (options s) (typedQuery fround query) k o)
    (LRUCache.entries (resultCache s)) = None ->
  db_findNearest (typedQuery fround query) k (dbOptions (options s) o) (db s) = (inl e, d) ->
  let r := findNearest' query k o elapsed s in
  result r.1 = Throw e /\
  calls (stats r.2) = calls (stats s) + 1 /\
  cacheMisses (stats r.2) = cacheMisses (stats s) + 1 /\
  totalTime (stats r.2) = totalTime (stats s) /\
  lastSearchTime (stats r.2) = lastSearchTime (stats s) /\
  cacheHits (stats r.2) = cacheHits (stats s).
Proof.
  intros Hc Hf Hdb r. subst r.
  rewrite findNearest_reaches_backend by auto.
  unfold delegate. simpl. rewrite Hdb, Hc. simpl. auto 10.
Qed.

(** C6, as the code has it. A call that does not hit the cache calls the
    database once, with the query as a Float32Array, [k], the filter and the
    probes of the call's options and the metric of the engine's options, and
    with no other field: the other options of the call are not handed on. *)
Theorem backend_request query k o elapsed s :
  (cacheResults (options s) = true ->
   LRUCache.find (key' (options s) (typedQuery fround query) k o)
     (LRUCache.entries (resultCache s)) = None) ->
  dbCalls (trace (findNearest' query k o elapsed s).1) =
  [(typedQuery fround query, k,
    {| db_filter := filter o; db_distanceMetric := metric (options s);
       db_probes := probes o; db_others := [] |})].
Proof.
  intros Hmiss. rewrite findNearest_reaches_backend by done.
  unfold delegate. simpl.
  destruct (db_findNearest _ _ _ (db s)) as [[err|found] d]; simpl; [done|].
  by destruct (cacheResults (options s)).
Qed.

(** C9. [getStats] reports [totalTime / calls] as [avgTime] when [calls] is
    positive and 0 otherwise, so it never divides by zero, and it reports the
    size of the cache. *)
Theorem getStats_avgTime s :
  (calls (stats s) > 0 ->
   avgTime (getStats s) = (totalTime (stats s) / inject_Z (calls (stats s)))%Q) /\
  (calls (stats s) <= 0 -> avgTime (getStats s) = 0%Q) /\
  cachedResultsCount (getStats s) = LRUCache.size (resultCache s).
Proof.
  unfold getStats. simpl. split; [|split].
  - intros Hpos. case_decide; [done|lia].
  - intros Hzero. case_decide; [lia|done].
  - reflexivity.
Qed.

(** *** Arrays *)

Lemma read_old (h : heap_of SearchResult) a l :
  (l < length h)%nat -> read (h ++ [a]) l = read h l.
Proof. intros Hl. unfold read. by rewrite lookup_app_l. Qed.

Lemma read_new (h : heap_of SearchResult) a : read (h ++ [a]) (length h) = a.
Proof. unfold read. by rewrite list_lookup_middle. Qed.

Lemma read_mutate_other (h : heap_of SearchResult) l l' a :
  l <> l' -> read (mutate h l a) l' = read h l'.
Proof. intros Hne. unfold read, mutate. by rewrite list_lookup_insert_ne. Qed.

(** C1. Caching enabled, nothing in the cache: the first call is a miss, it
    calls the database and returns what the database answered; the same call
    again is a hit, it returns an array with the same elements and does not
    call the database; one hit and one miss have been counted (from a new
    engine: [cacheHits = 1] and [cacheMisses = 1]). *)
Theorem miss_then_hit query k o e1 e2 s (R : list SearchResult) d :
  cacheResults (options s) = true ->
  LRUCache.entries (resultCache s) = [] ->
  (0 < LRUCache.max (resultCache s))%nat ->
  db_findNearest (typedQuery fround query) k (dbOptions (options s) o) (db s) = (inr R, d) ->
  let first := findNearest' query k o e1 s in
  let second := findNearest' query k o e2 first.2 in
  returned first.1 first.2 = Some R /\
  dbCalls (trace first.1) = [(typedQuery fround query, k, dbOptions (options s) o)] /\
  cacheHits (stats first.2) = cacheHits (stats s) /\
  cacheMisses (stats first.2) = cacheMisses (stats s) + 1 /\
  returned second.1 second.2 = Some R /\
  dbCalls (trace second.1) = [] /\
  db second.2 = db first.2 /\
  cacheHits (stats second.2) = cacheHits (stats s) + 1 /\
  cacheMisses (stats second.2) = cacheMisses (stats s) + 1 /\
  calls (stats second.2) = calls (stats s) + 2.
Proof.
  intros Hc Hempty Hmax Hdb first second.
  set (key := key' (options s) (typedQuery fround query) k o).
  assert (first =
    ({| result := Return (length (heap s));
        trace := [TimerStart timerLabel;
                  DbFindNearest (typedQuery fround query) k (dbOptions (options s) o);
                  TimerGetElapsed timerLabel; TimerStop timerLabel] |},
     {| options := options s;
        resultCache := LRUCache.mk (LRUCache.max (resultCache s)) [(key, S (length (heap s)))];
        stats := record_time e1 (count_miss (count_call (stats s)));
        db := d;
        heap := (heap s ++ [R]) ++ [R] |})) as Hfirst.
  { subst first. rewrite findNearest_reaches_backend by (by rewrite Hempty).
    unfold delegate, spread, alloc. simpl. rewrite Hdb, Hc. simpl.
    rewrite read_new, length_app. simpl. rewrite Nat.add_1_r.
    unfold LRUCache.set. rewrite Hempty. simpl.
    case_decide; [lia|done]. }
  assert (Hhit := findNearest_hit query k o e2 first.2 (S (length (heap s)))).
  fold second in Hhit. clearbody second. rewrite Hfirst in *. simpl in *.
  fold key in Hhit. rewrite decide_True in Hhit by done.
  destruct (Hhit Hc eq_refl) as (Hres & Hno & Hheap & Hd & Hst & _).
  unfold returned. rewrite Hres, Hheap, Hst. simpl.
  assert (read ((heap s ++ [R]) ++ [R]) (S (length (heap s))) = R) as Hcopy.
  { replace (S (length (heap s))) with (length (heap s ++ [R]))
      by (rewrite length_app; simpl; lia).
    apply read_new. }
  rewrite read_new, Hcopy.
  rewrite read_old by (rewrite length_app; simpl; lia).
  rewrite read_new.
  repeat split; try done; lia.
Qed.

(** *** How the key depends on the request *)

Lemma string_app_cons (c : ascii) (a b : string) : String c a +:+ b = String c (a +:+ b).
Proof. reflexivity. Qed.

Lemma string_length_app (a b : string) :
  String.length (a +:+ b) = (String.length a + String.length b)%nat.
Proof.
  induction a as [|c a IH]; [done|].
  rewrite string_app_cons. simpl. by rewrite IH.
Qed.

Lemma string_app_inv_head (s a b : string) : s +:+ a = s +:+ b -> a = b.
Proof.
  induction s as [|c s IH]; [done|].
  rewrite !string_app_cons. intros [= H]. auto.
Qed.

Lemma string_app_inv_tail (s a b : string) : a +:+ s = b +:+ s -> a = b.
Proof.
  revert b. induction a as [|c a IH]; intros [|c' b] H.
  - done.
  - apply (f_equal String.length) in H.
    rewrite !string_length_app in H. simpl in H. lia.
  - apply (f_equal String.length) in H.
    rewrite !string_length_app in H. simpl in H. lia.
  - rewrite !string_app_cons in H. injection H as -> H. f_equal. auto.
Qed.

Lemma key_changes_with_k cfg (q : list num) k1 k2 o :
  k1 <> k2 -> key' cfg q k1 o <> key' cfg q k2 o.
Proof.
  intros Hne Heq. unfold _getCacheKey in Heq.
  do 2 apply string_app_inv_head in Heq.
  apply string_app_inv_tail in Heq.
  by apply (inj pretty) in Heq.
Qed.

Lemma key_changes_with_metric m1 m2 c1 c2 (q : list num) k o :
  m1 <> m2 ->
  key' {| metric := m1; cacheResults := c1 |} q k o <>
  key' {| metric := m2; cacheResults := c2 |} q k o.
Proof.
  intros Hne Heq. unfold _getCacheKey in Heq. simpl in Heq.
  do 4 apply string_app_inv_head in Heq.
  by apply string_app_inv_tail in Heq.
Qed.

(** The truth value of [options.probes]. *)
Lemma probesInfo_given o p :
  probes o = Some p -> p <> 0 -> probesInfo o = "probes" +:+ pretty p.
Proof. intros Hp Hnz. unfold probesInfo. rewrite Hp. by case_decide. Qed.

Lemma probesInfo_falsy o :
  probes o = None \/ probes o = Some 0 -> probesInfo o = "".
Proof. unfold probesInfo. by intros [-> | ->]. Qed.

Lemma key_changes_with_probes cfg (q : list num) k o1 o2 :
  filter o1 = filter o2 ->
  probes o1 <> probes o2 ->
  ~ ((probes o1 = None \/ probes o1 = Some 0) /\ (probes o2 = None \/ probes o2 = Some 0)) ->
  key' cfg q k o1 <> key' cfg q k o2.
Proof.
  intros Hf Hne Hnot Heq. unfold _getCacheKey, filterInfo in Heq. rewrite Hf in Heq.
  do 8 apply string_app_inv_head in Heq.
  destruct (probes o1) as [p1|] eqn:H1, (probes o2) as [p2|] eqn:H2.
  - destruct (decide (p1 = 0)) as [->|Hp1], (decide (p2 = 0)) as [->|Hp2].
    + done.
    + rewrite (probesInfo_falsy o1), (probesInfo_given o2 p2) in Heq by auto. discriminate.
    + rewrite (probesInfo_given o1 p1), (probesInfo_falsy o2) in Heq by auto. discriminate.
    + rewrite (probesInfo_given o1 p1), (probesInfo_given o2 p2) in Heq by auto.
      apply string_app_inv_head in Heq. apply (inj pretty) in Heq. congruence.
  - destruct (decide (p1 = 0)) as [->|Hp1]; [apply Hnot; auto|].
    rewrite (probesInfo_given o1 p1), (probesInfo_falsy o2) in Heq by auto. discriminate.
  - destruct (decide (p2 = 0)) as [->|Hp2]; [apply Hnot; auto|].
    rewrite (probesInfo_falsy o1), (probesInfo_given o2 p2) in Heq by auto. discriminate.
  - done.
Qed.

(** C4. The filter's field of the cache key is the fixed text "noFilter"
    when the call has no filter, and "filterHash:" followed by the length of
    the filter's text when it has one; nothing else of the filter is in the
    key. So two calls that differ only in filters whose texts have the same
    length have the same key; and the length is all the key tells: with the
    other inputs equal, filters of different text lengths give different
    keys, and so do a filter and no filter. *)
Theorem filter_fingerprint_by_length cfg (q : list num) k :
  (forall o, filter o = None ->
     key' cfg q k o =
     queryHash toFixed q +:+ "_k" +:+ pretty k +:+ "_" +:+ metric cfg +:+ "_" +:+
     "noFilter" +:+ "_" +:+ probesInfo o) /\
  (forall o f, filter o = Some f ->
     key' cfg q k o =
     queryHash toFixed q +:+ "_k" +:+ pretty k +:+ "_" +:+ metric cfg +:+ "_" +:+
     "filterHash:" +:+ pretty (String.length (filter_toString f)) +:+ "_" +:+ probesInfo o) /\
  (forall o1 o2 f1 f2,
     filter o1 = Some f1 -> filter o2 = Some f2 -> probes o1 = probes o2 ->
     String.length (filter_toString f1) = String.length (filter_toString f2) ->
     key' cfg q k o1 = key' cfg q k o2) /\
  (forall o1 o2 f1 f2,
     filter o1 = Some f1 -> filter o2 = Some f2 -> probes o1 = probes o2 ->
     key' cfg q k o1 = key' cfg q k o2 ->
     String.length (filter_toString f1) = String.length (filter_toString f2)) /\
  (forall o1 o2 f,
     filter o1 = None -> filter o2 = Some f ->
     key' cfg q k o1 <> key' cfg q k o2).
Proof.
  assert (Hsome : forall o f, filter o = Some f ->
            key' cfg q k o =
            queryHash toFixed q +:+ "_k" +:+ pretty k +:+ "_" +:+ metric cfg +:+ "_" +:+
            "filterHash:" +:+ pretty (String.length (filter_toString f)) +:+ "_" +:+
            probesInfo o).
  { intros o f Hf. unfold _getCacheKey, filterInfo. rewrite Hf. reflexivity. }
  assert (Hnone : forall o, filter o = None ->
            key' cfg q k o =
            queryHash toFixed q +:+ "_k" +:+ pretty k +:+ "_" +:+ metric cfg +:+ "_" +:+
            "noFilter" +:+ "_" +:+ probesInfo o).
  { intros o Hf. unfold _getCacheKey, filterInfo. rewrite Hf. reflexivity. }
  assert (Hprobes : forall o1 o2, probes o1 = probes o2 -> probesInfo o1 = probesInfo o2).
  { intros o1 o2 Hp. unfold probesInfo. by rewrite Hp. }
  split; [exact Hnone|]. split; [exact Hsome|]. split; [|split].
  - intros o1 o2 f1 f2 H1 H2 Hp Hlen.
    by rewrite (Hsome o1 f1 H1), (Hsome o2 f2 H2), Hlen, (Hprobes o1 o2 Hp).
  - intros o1 o2 f1 f2 H1 H2 Hp Heq.
    rewrite (Hsome o1 f1 H1), (Hsome o2 f2 H2), (Hprobes o1 o2 Hp) in Heq.
    do 7 apply string_app_inv_head in Heq.
    apply (string_app_inv_tail ("_" +:+ probesInfo o2)) in Heq.
    by apply (inj pretty) in Heq.
  - intros o1 o2 f H1 H2 Heq.
    rewrite (Hnone o1 H1), (Hsome o2 f H2) in Heq.
    do 6 apply string_app_inv_head in Heq.
    discriminate Heq.
Qed.

(** An absent [probes] and [probes: 0] give one key, whatever the rest. *)
Lemma key_probes_zero cfg (q : list num) k f (oth1 oth2 : list (string * OptionValue)) :
  key' cfg q k {| filter := f; probes := None; others := oth1 |} =
  key' cfg q k {| filter := f; probes := Some 0; others := oth2 |}.
Proof. reflexivity. Qed.

Lemma lru_find_remove_other {V : Type} (k k' : string) (l : list (string * V)) :
  k <> k' -> LRUCache.find k (LRUCache.remove k' l) = LRUCache.find k l.
Proof.
  intros Hne. induction l as [|[k0 v0] l IH]; simpl; [done|].
  repeat (case_decide; simpl); subst; try done.
Qed.

Lemma lru_find_removelast_absent {V : Type} (k : string) (l : list (string * V)) :
  LRUCache.find k l = None -> LRUCache.find k (removelast l) = None.
Proof.
  induction l as [|[k0 v0] [|e l] IH]; simpl in *; [done..|].
  case_decide; [done|]. auto.
Qed.

Lemma lru_get_other_absent {V : Type} (k k' : string) (c : LRUCache.t V) :
  k <> k' -> LRUCache.find k (LRUCache.entries c) = None ->
  LRUCache.find k (LRUCache.entries (LRUCache.get k' c).2) = None.
Proof.
  intros Hne Hf. unfold LRUCache.get.
  destruct (LRUCache.find k' (LRUCache.entries c)); simpl; [|done].
  rewrite decide_False by done. by rewrite lru_find_remove_other.
Qed.

Lemma lru_set_other_absent {V : Type} (k k' : string) (v : V) (c : LRUCache.t V) :
  k <> k' -> LRUCache.find k (LRUCache.entries c) = None ->
  LRUCache.find k (LRUCache.entries (LRUCache.set k' v c)) = None.
Proof.
  intros Hne Hf. unfold LRUCache.set.
  destruct (LRUCache.find k' (LRUCache.entries c)); simpl.
  - rewrite decide_False by done. by rewrite lru_find_remove_other.
  - case_decide; simpl; rewrite decide_False by done; [|done].
    by apply lru_find_removelast_absent.
Qed.

(** A call leaves a key that is not its own out of the cache. *)
Lemma findNearest_other_key query k o elapsed s (other : string) :
  other <> key' (options s) (typedQuery fround query) k o ->
  LRUCache.find other (LRUCache.entries (resultCache s)) = None ->
  LRUCache.find other (LRUCache.entries (resultCache (findNearest' query k o elapsed s).2)) = None.
Proof.
  intros Hne Habs. unfold findNearest, delegate, spread, alloc. simpl.
  destruct (cacheResults (options s)) eqn:Hc; simpl.
  - pose proof (lru_get_other_absent other _ (resultCache s) Hne Habs) as Hget.
    destruct (LRUCache.get _ (resultCache s)) as [[cached|] cache] eqn:Hg; simpl in *; [done|].
    destruct (db_findNearest _ _ _ (db s)) as [[err|found] d]; simpl; [done|].
    by apply lru_set_other_absent.
  - by destruct (db_findNearest _ _ _ (db s)) as [[err|found] d].
Qed.

(** *** The size of the cache *)

Lemma findNearest_cache_max query k o elapsed s :
  LRUCache.max (resultCache (findNearest' query k o elapsed s).2) = LRUCache.max (resultCache s).
Proof.
  unfold findNearest, delegate, spread, alloc. simpl.
  destruct (cacheResults (options s)) eqn:Hc; simpl.
  - pose proof (lru_get_max (key' (options s) (typedQuery fround query) k o) (resultCache s)) as Hm.
    destruct (LRUCache.get _ (resultCache s)) as [[cached|] cache]; simpl in *; [done|].
    destruct (db_findNearest _ _ _ (db s)) as [[err|found] d]; simpl; [done|].
    by rewrite lru_set_max.
  - by destruct (db_findNearest _ _ _ (db s)) as [[err|found] d].
Qed.

Lemma findNearest_cache_size query k o elapsed s :
  (0 < LRUCache.max (resultCache s))%nat ->
  (LRUCache.size (resultCache s) <= LRUCache.max (resultCache s))%nat ->
  (LRUCache.size (resultCache (findNearest' query k o elapsed s).2)
   <= LRUCache.max (resultCache s))%nat.
Proof.
  intros Hpos Hle. unfold findNearest, delegate, spread, alloc. simpl.
  destruct (cacheResults (options s)) eqn:Hc; simpl.
  - pose proof (lru_get_max (key' (options s) (typedQuery fround query) k o) (resultCache s)) as Hm.
    pose proof (lru_get_size (key' (options s) (typedQuery fround query) k o) (resultCache s)) as Hs.
    destruct (LRUCache.get _ (resultCache s)) as [[cached|] cache]; simpl in *; [lia|].
    destruct (db_findNearest _ _ _ (db s)) as [[err|found] d]; simpl; [lia|].
    rewrite <- Hm. apply lru_set_size; lia.
  - by destruct (db_findNearest _ _ _ (db s)) as [[err|found] d].
Qed.



(** *** Returned arrays and the arrays of the cache *)

Lemma findNearest_miss_stored query k o elapsed s (R : list SearchResult) d :
  cacheResults (options s) = true ->
  LRUCache.find (key' (options s) (typedQuery fround query) k o)
    (LRUCache.entries (resultCache s)) = None ->
  db_findNearest (typedQuery fround query) k (dbOptions (options s) o) (db s) = (inr R, d) ->
  let r := findNearest' query k o elapsed s in
  result r.1 = Return (length (heap s)) /\
  heap r.2 = (heap s ++ [R]) ++ [R] /\
  resultCache r.2 =
    LRUCache.set (key' (options s) (typedQuery fround query) k o) (S (length (heap s)))
      (resultCache s).
Proof.
  intros Hc Hf Hdb r. subst r. rewrite findNearest_reaches_backend by done.
  unfold delegate, spread, alloc. simpl. rewrite Hdb, Hc. simpl.
  rewrite read_new, length_app. simpl. by rewrite Nat.add_1_r.
Qed.

(** A call keeps the arrays of the cache allocated, and hands out an array
    that is not among them. *)
Lemma findNearest_apart query k o elapsed s held :
  held_apart held s ->
  let r := findNearest' query k o elapsed s in
  held_apart (match result r.1 with Return ret => held ++ [ret] | Throw _ => held end) r.2.
Proof.
  intros [Halloc Hheld] r. subst r.
  assert (Hlt : forall l, l ∈ LRUCache.values (resultCache s) -> (l < length (heap s))%nat).
  { intros l Hl. unfold cache_allocated in Halloc. rewrite Forall_forall in Halloc. auto. }
  unfold held_apart, cache_allocated, findNearest, delegate, spread, alloc. simpl.
  destruct (cacheResults (options s)) eqn:Hc; simpl.
  - pose proof (lru_get_values (key' (options s) (typedQuery fround query) k o) (resultCache s))
      as Hsub.
    destruct (LRUCache.get _ (resultCache s)) as [[cached|] cache]; simpl in *.
    + split.
      * rewrite Forall_forall. intros l Hl. rewrite length_app. simpl.
        specialize (Hlt l (Hsub l Hl)). lia.
      * rewrite Forall_app, Forall_singleton. split.
        -- eapply Forall_impl; [exact Hheld|]. simpl. intros r [Hr Hnot].
           rewrite length_app. simpl. split; [lia|]. intros Hin. apply Hnot. auto.
        -- rewrite length_app. simpl. split; [lia|].
           intros Hin. specialize (Hlt _ (Hsub _ Hin)). lia.
    + destruct (db_findNearest _ _ _ (db s)) as [[err|found] d]; simpl.
      * split.
        -- rewrite Forall_forall. intros l Hl. auto.
        -- eapply Forall_impl; [exact Hheld|]. simpl. intros r [Hr Hnot].
           split; [done|]. intros Hin. apply Hnot. auto.
      * replace (length (heap s ++ [found])) with (S (length (heap s)))
          by (rewrite length_app; simpl; lia).
        assert (Hset : forall l,
          l ∈ LRUCache.values
                (LRUCache.set (key' (options s) (typedQuery fround query) k o)
                   (S (length (heap s))) cache) ->
          l = S (length (heap s)) \/ l ∈ LRUCache.values (resultCache s)).
        { intros l Hl. apply lru_set_values in Hl as [->|Hl]; [by left|right; auto]. }
        split.
        -- rewrite Forall_forall. intros l Hl. rewrite !length_app. simpl.
           destruct (Hset l Hl) as [->|Hold]; [lia|]. specialize (Hlt l Hold). lia.
        -- rewrite Forall_app, Forall_singleton. split.
           ++ eapply Forall_impl; [exact Hheld|]. simpl. intros r [Hr Hnot].
              rewrite !length_app. simpl. split; [lia|].
              intros Hin. destruct (Hset r Hin) as [->|Hold]; [lia|done].
           ++ rewrite !length_app. simpl. split; [lia|].
              intros Hin. destruct (Hset _ Hin) as [Heq|Hold]; [lia|].
              specialize (Hlt _ Hold). lia.
  - destruct (db_findNearest _ _ _ (db s)) as [[err|found] d]; simpl.
    + split; [done|]. done.
    + split.
      * rewrite Forall_forall. intros l Hl. rewrite length_app. simpl.
        specialize (Hlt l Hl). lia.
      * rewrite Forall_app, Forall_singleton. split.
        -- eapply Forall_impl; [exact Hheld|]. simpl. intros r [Hr Hnot].
           rewrite length_app. simpl. split; [lia|done].
        -- rewrite length_app. simpl. split; [lia|].
           intros Hin. specialize (Hlt _ Hin). lia.
Qed.

Lemma agree_on_cache_refl s : agree_on_cache s s.
Proof. unfold agree_on_cache. auto 10. Qed.

(** Changing an array the cache does not refer to keeps the states in
    agreement. *)
Lemma agree_on_cache_mutate s t r a :
  agree_on_cache s t ->
  r ∉ LRUCache.values (resultCache t) ->
  agree_on_cache (with_heap (mutate (heap s) r a) s) t.
Proof.
  unfold agree_on_cache, with_heap, mutate. simpl.
  intros (Ho & Hcache & Hst & Hdb & Hlen & Hread) Hnot.
  repeat split; try done.
  - by rewrite length_insert.
  - intros l Hl. rewrite <- (Hread l Hl).
    apply read_mutate_other. intros ->. done.
Qed.

(** In two states that agree on the cache's arrays, a call does the same,
    returns the same elements, and leaves states that agree again. *)
Lemma read_new_at (h : heap_of SearchResult) a n : length h = n -> read (h ++ [a]) n = a.
Proof. intros <-. apply read_new. Qed.

Lemma findNearest_agree query k o elapsed s t :
  agree_on_cache s t ->
  cache_allocated t ->
  let r := findNearest' query k o elapsed s in
  let r' := findNearest' query k o elapsed t in
  r.1 = r'.1 /\ returned r.1 r.2 = returned r'.1 r'.2 /\ agree_on_cache r.2 r'.2.
Proof.
  intros (Ho & Hcache & Hst & Hdb & Hlen & Hread) Halloc r r'. subst r r'.
  assert (Hlt : forall l, l ∈ LRUCache.values (resultCache t) -> (l < length (heap t))%nat).
  { intros l Hl. unfold cache_allocated in Halloc. rewrite Forall_forall in Halloc. auto. }
  assert (Hlen1 : forall a, length (heap s ++ [a]) = S (length (heap t)))
    by (intros a; rewrite length_app; simpl; lia).
  assert (Hlen2 : forall a, length (heap t ++ [a]) = S (length (heap t)))
    by (intros a; rewrite length_app; simpl; lia).
  unfold agree_on_cache, returned, findNearest, delegate, spread, alloc. simpl.
  rewrite Ho, Hcache, Hst, Hdb, Hlen.
  destruct (cacheResults (options t)) eqn:Hc; simpl.
  - pose proof (lru_get_values (key' (options t) (typedQuery fround query) k o) (resultCache t))
      as Hsub.
    pose proof (lru_get_found (key' (options t) (typedQuery fround query) k o) (resultCache t))
      as Hfound.
    destruct (LRUCache.get _ (resultCache t)) as [[cached|] cache]; simpl in *.
    + assert (cached ∈ LRUCache.values (resultCache t)) as Hcached
        by (eapply lru_find_value; eauto).
      rewrite (Hread cached Hcached), (read_new_at (heap s) _ _ Hlen), read_new.
      repeat split; try done.
      * by rewrite Hlen1, Hlen2.
      * intros l Hl. specialize (Hlt l (Hsub l Hl)).
        rewrite !read_old by lia. auto.
    + destruct (db_findNearest _ _ _ (db t)) as [[err|found] d]; simpl.
      * repeat split; try done. intros l Hl. auto.
      * rewrite Hlen1, Hlen2, (read_new_at (heap s) _ _ Hlen), read_new.
        rewrite (read_old (heap s ++ [found])) by (rewrite Hlen1; lia).
        rewrite (read_old (heap t ++ [found])) by (rewrite Hlen2; lia).
        rewrite (read_new_at (heap s) _ _ Hlen), read_new.
        repeat split; try done.
        -- rewrite !length_app. simpl. lia.
        -- intros l [->|Hl]%lru_set_values.
           ++ by rewrite (read_new_at _ _ _ (Hlen1 found)), (read_new_at _ _ _ (Hlen2 found)).
           ++ specialize (Hlt l (Hsub l Hl)).
              rewrite (read_old ((heap s ++ [found]))) by (rewrite Hlen1; lia).
              rewrite (read_old ((heap t ++ [found]))) by (rewrite Hlen2; lia).
              rewrite !read_old by lia. auto.
  - destruct (db_findNearest _ _ _ (db t)) as [[err|found] d]; simpl.
    + repeat split; try done.
    + rewrite (read_new_at (heap s) _ _ Hlen), read_new.
      repeat split; try done.
      * by rewrite Hlen1, Hlen2.
      * intros l Hl. specialize (Hlt l Hl). rewrite !read_old by lia. auto.
Qed.

(** Whatever the caller does to the arrays it was handed, every call returns
    the elements it returns when the caller changes nothing. *)
Lemma interact_agree (acts : list (Action num SearchFilter SearchResult OptionValue)) held s t :
  agree_on_cache s t ->
  held_apart held t ->
  (interact' acts held s).1 = (interact' (invocations acts) held t).1.
Proof.
  revert held s t. induction acts as [|[c|i a] acts IH]; intros held s t Hagree Hapart.
  - reflexivity.
  - simpl. unfold perform.
    destruct (findNearest_agree (call_query c) (call_k c) (call_options c) (call_elapsed c)
                s t Hagree (proj1 Hapart)) as (Hout & Hret & Hagree').
    pose proof (findNearest_apart (call_query c) (call_k c) (call_options c) (call_elapsed c)
                  t held Hapart) as Hapart'.
    simpl in *.
    destruct (findNearest' _ _ _ _ s) as [out s1].
    destruct (findNearest' _ _ _ _ t) as [out' t1]. simpl in *. subst out'.
    specialize (IH _ s1 t1 Hagree' Hapart').
    destruct (interact' acts _ s1) as [seen s2].
    destruct (interact' (invocations acts) _ t1) as [seen' t2]. simpl in *.
    by rewrite Hret, IH.
  - simpl. destruct (held !! i) as [r|] eqn:Hr; [|by apply IH].
    apply IH; [|done].
    apply agree_on_cache_mutate; [done|].
    destruct Hapart as [_ Hheld]. rewrite Forall_forall in Hheld.
    apply (Hheld r). by eapply list_elem_of_lookup_2.
Qed.

(** C8. Starting where the cache's arrays are allocated (as in a new
    engine), and whatever a caller does, between calls, to the arrays that
    earlier calls returned to it, every call returns the same elements as
    when the caller changes nothing. The reason: on a miss the cache gets an
    array of its own, with the elements of the array that is returned; on a
    hit the call returns a newly allocated array with the elements of the
    cache's array, and the cache's array stays in the cache. *)
Theorem copy_isolation s :
  cache_allocated s ->
  (forall acts : list (Action num SearchFilter SearchResult OptionValue),
     (interact' acts [] s).1 = (interact' (invocations acts) [] s).1) /\
  (forall query k o elapsed (R : list SearchResult) d,
     cacheResults (options s) = true ->
     LRUCache.find (key' (options s) (typedQuery fround query) k o)
       (LRUCache.entries (resultCache s)) = None ->
     db_findNearest (typedQuery fround query) k (dbOptions (options s) o) (db s) = (inr R, d) ->
     let r := findNearest' query k o elapsed s in
     exists ret stored,
       result r.1 = Return ret /\
       LRUCache.find (key' (options s) (typedQuery fround query) k o)
         (LRUCache.entries (resultCache r.2)) = Some stored /\
       stored <> ret /\
       read (heap r.2) ret = R /\ read (heap r.2) stored = R) /\
  (forall query k o elapsed stored,
     cacheResults (options s) = true ->
     LRUCache.find (key' (options s) (typedQuery fround query) k o)
       (LRUCache.entries (resultCache s)) = Some stored ->
     let r := findNearest' query k o elapsed s in
     exists ret,
       result r.1 = Return ret /\
       ret = length (heap s) /\
       (ret ∉ LRUCache.values (resultCache r.2)) /\
       read (heap r.2) ret = read (heap s) stored /\
       read (heap r.2) stored = read (heap s) stored /\
       LRUCache.find (key' (options s) (typedQuery fround query) k o)
         (LRUCache.entries (resultCache r.2)) = Some stored).
Proof.
  intros Halloc. split; [|split].
  - intros acts. apply interact_agree; [apply agree_on_cache_refl|].
    split; [done|apply Forall_nil_2].
  - intros query k o elapsed R d Hc Hf Hdb r.
    destruct (findNearest_miss_stored query k o elapsed s R d Hc Hf Hdb)
      as (Hres & Hheap & Hcache).
    fold r in Hres, Hheap, Hcache.
    exists (length (heap s)), (S (length (heap s))).
    rewrite Hres, Hheap, Hcache, lru_set_find.
    split; [done|]. split; [done|]. split; [lia|]. split.
    + rewrite read_old by (rewrite length_app; simpl; lia). apply read_new.
    + replace (S (length (heap s))) with (length (heap s ++ [R]))
        by (rewrite length_app; simpl; lia).
      apply read_new.
  - intros query k o elapsed stored Hc Hf r.
    destruct (findNearest_hit query k o elapsed s stored Hc Hf)
      as (Hres & _ & Hheap & _ & _ & Hcache).
    fold r in Hres, Hheap, Hcache.
    assert (Hlt : forall l, l ∈ LRUCache.values (resultCache s) -> (l < length (heap s))%nat).
    { intros l Hl. unfold cache_allocated in Halloc. rewrite Forall_forall in Halloc. auto. }
    exists (length (heap s)). rewrite Hres, Hheap, Hcache.
    repeat split; try done.
    + intros Hin%lru_get_values. specialize (Hlt _ Hin). lia.
    + apply read_new.
    + apply read_old, Hlt. by eapply lru_find_value.
    + unfold LRUCache.get. rewrite Hf. simpl. by rewrite decide_True.
Qed.
(** *** Further properties of section 8 *)

(** Key sensitivity, as far as it holds: another [k], another metric, or
    another [probes] (unless both are absent or 0) gives another key; and a
    call whose key differs from the previous call's, and was not in the
    cache before, calls the database. *)
Theorem key_sensitivity cfg (q : list num) k o :
  (forall k2, k <> k2 -> key' cfg q k o <> key' cfg q k2 o) /\
  (forall m2, metric cfg <> m2 ->
     key' cfg q k o <> key' {| metric := m2; cacheResults := cacheResults cfg |} q k o) /\
  (forall o2, filter o = filter o2 -> probes o <> probes o2 ->
     ~ ((probes o = None \/ probes o = Some 0) /\ (probes o2 = None \/ probes o2 = Some 0)) ->
     key' cfg q k o <> key' cfg q k o2) /\
  (forall s query query2 k2 o2 e1 e2,
     cfg = options s -> q = typedQuery fround query ->
     key' cfg (typedQuery fround query2) k2 o2 <> key' cfg q k o ->
     LRUCache.find (key' cfg (typedQuery fround query2) k2 o2)
       (LRUCache.entries (resultCache s)) = None ->
     dbCalls (trace (findNearest' query2 k2 o2 e2 (findNearest' query k o e1 s).2).1) =
     [(typedQuery fround query2, k2, dbOptions cfg o2)]).
Proof.
  split; [|split; [|split]].
  - intros k2. apply key_changes_with_k.
  - intros m2 Hm. destruct cfg as [m c]. by apply key_changes_with_metric.
  - intros o2. apply key_changes_with_probes.
  - intros s query query2 k2 o2 e1 e2 -> -> Hne Habs.
    pose proof (findNearest_other_key query k o e1 s _ Hne Habs) as Hstill.
    pose proof (findNearest_miss_dbCalls query2 k2 o2 e2 (findNearest' query k o e1 s).2) as Hreq.
    rewrite findNearest_options in Hreq. apply Hreq. auto.
Qed.

(** Disabled caching: every call calls the database, no hit is counted and
    the cache is not touched. *)
Theorem disabled_caching query k o elapsed s :
  cacheResults (options s) = false ->
  let r := findNearest' query k o elapsed s in
  dbCalls (trace r.1) = [(typedQuery fround query, k, dbOptions (options s) o)] /\
  cacheHits (stats r.2) = cacheHits (stats s) /\
  cacheMisses (stats r.2) = cacheMisses (stats s) /\
  resultCache r.2 = resultCache s /\
  cacheResults (options r.2) = false.
Proof.
  intros Hc r. subst r. split.
  - apply findNearest_miss_dbCalls. congruence.
  - rewrite findNearest_options.
    rewrite findNearest_reaches_backend by congruence.
    unfold delegate. simpl. rewrite Hc.
    by destruct (db_findNearest _ _ _ (db s)) as [[err|found] d].
Qed.

(** [clearCache] empties the cache: [getStats] reports no cached result, and
    the next call, whatever it asks, calls the database. *)
Theorem clearCache_forgets query k o elapsed s :
  cachedResultsCount (getStats (clearCache s)) = 0%nat /\
  stats (clearCache s) = stats s /\
  dbCalls (trace (findNearest' query k o elapsed (clearCache s)).1) =
  [(typedQuery fround query, k, dbOptions (options s) o)].
Proof.
  split; [reflexivity|]. split; [reflexivity|].
  by apply (findNearest_miss_dbCalls query k o elapsed (clearCache s)).
Qed.

(** *** The courses of a call *)

(** A call takes one of three courses; each is given with the state it leaves. *)
Lemma findNearest_course query k o elapsed s :
  let q := typedQuery fround query in
  let key := key' (options s) q k o in
  let req := dbOptions (options s) o in
  let counted := if cacheResults (options s) then count_miss (count_call (stats s))
                 else count_call (stats s) in
  let r := findNearest' query k o elapsed s in
  (exists stored,
     cacheResults (options s) = true /\
     LRUCache.find key (LRUCache.entries (resultCache s)) = Some stored /\
     r = ({| result := Return (length (heap s)); trace := hit_trace |},
          {| options := options s;
             resultCache := (LRUCache.get key (resultCache s)).2;
             stats := record_time elapsed (count_hit (count_call (stats s)));
             db := db s;
             heap := heap s ++ [read (heap s) stored] |})) \/
  (exists e d,
     (cacheResults (options s) = true ->
      LRUCache.find key (LRUCache.entries (resultCache s)) = None) /\
     db_findNearest q k req (db s) = (inl e, d) /\
     r = ({| result := Throw e; trace := failure_trace q k req e |},
          {| options := options s; resultCache := resultCache s; stats := counted;
             db := d; heap := heap s |})) \/
  (exists R d,
     (cacheResults (options s) = true ->
      LRUCache.find key (LRUCache.entries (resultCache s)) = None) /\
     db_findNearest q k req (db s) = (inr R, d) /\
     r = ({| result := Return (length (heap s)); trace := miss_trace q k req |},
          {| options := options s;
             resultCache := if cacheResults (options s)
                            then LRUCache.set key (S (length (heap s))) (resultCache s)
                            else resultCache s;
             stats := record_time elapsed counted;
             db := d;
             heap := if cacheResults (options s) then (heap s ++ [R]) ++ [R]
                     else heap s ++ [R] |})).
Proof.
  intros q key req counted r.
  destruct (cacheResults (options s)) eqn:Hc.
  - destruct (LRUCache.find key (LRUCache.entries (resultCache s))) as [stored|] eqn:Hf.
    + left. exists stored. split; [done|]. split; [done|].
      subst r. unfold findNearest. rewrite Hc. fold q key.
      unfold LRUCache.get. by rewrite Hf.
    + right. subst r. rewrite findNearest_reaches_backend by (intros _; exact Hf).
      unfold delegate, spread, alloc. simpl. fold q req key. rewrite Hc.
      destruct (db_findNearest q k req (db s)) as [[e|R] d] eqn:Hdb; simpl.
      * left. exists e, d. auto.
      * right. exists R, d. split; [done|]. split; [done|].
        rewrite read_new, length_app. simpl. by rewrite Nat.add_1_r.
  - right. subst r. rewrite findNearest_reaches_backend by congruence.
    unfold delegate, spread, alloc. simpl. fold q req key. rewrite Hc.
    destruct (db_findNearest q k req (db s)) as [[e|R] d] eqn:Hdb; simpl.
    + left. exists e, d. split; [congruence|]. auto.
    + right. exists R, d. split; [congruence|]. auto.
Qed.

(** Every call starts the timer first and stops it last; it calls the
    database at most once; it reads the elapsed time exactly when it returns;
    and it writes to the console exactly when it throws, the error it
    throws. *)
Theorem call_courses query k o elapsed s :
  let out := (findNearest' query k o elapsed s).1 in
  let q := typedQuery fround query in
  let req := dbOptions (options s) o in
  (exists ret, result out = Return ret /\ trace out = hit_trace) \/
  (exists ret, result out = Return ret /\ trace out = miss_trace q k req) \/
  (exists e, result out = Throw e /\ trace out = failure_trace q k req e).
Proof.
  intros out q req. subst out.
  destruct (findNearest_course query k o elapsed s)
    as [(stored & _ & _ & ->) | [(e & d & _ & _ & ->) | (R & d & _ & _ & ->)]]; simpl.
  - left. eauto.
  - right. right. eauto.
  - right. left. eauto.
Qed.

(** *** What the counters count *)

Lemma findNearest_counts query k o elapsed s :
  let r := findNearest' query k o elapsed s in
  let called := Z.of_nat (length (dbCalls (trace r.1))) in
  calls (stats r.2) = calls (stats s) + 1 /\
  (cacheResults (options s) = true ->
   cacheMisses (stats r.2) = cacheMisses (stats s) + called /\
   cacheHits (stats r.2) = cacheHits (stats s) + (1 - called)) /\
  (cacheResults (options s) = false ->
   called = 1 /\
   cacheMisses (stats r.2) = cacheMisses (stats s) /\
   cacheHits (stats r.2) = cacheHits (stats s)).
Proof.
  intros r called. subst r called.
  destruct (findNearest_course query k o elapsed s)
    as [(stored & Hc & _ & ->) | [(e & d & _ & _ & ->) | (R & d & _ & _ & ->)]]; simpl.
  - split; [done|]. split; [intros _; lia|congruence].
  - destruct (cacheResults (options s)); simpl;
      (split; [done|]); (split; [intros ?|intros ?]; try done; lia).
  - destruct (cacheResults (options s)); simpl;
      (split; [done|]); (split; [intros ?|intros ?]; try done; lia).
Qed.

Lemma run_cons c (cs : list (Call num SearchFilter OptionValue)) s :
  run' (c :: cs) s =
  ((perform' c s).1 :: (run' cs (perform' c s).2).1, (run' cs (perform' c s).2).2).
Proof.
  simpl. destruct (perform' c s) as [out s1]. simpl. by destruct (run' cs s1).
Qed.

(** Every call is counted, the failed ones too. With caching enabled the
    misses are the calls of the database and the hits are the other calls;
    with caching disabled every call calls the database and neither hits nor
    misses are counted. *)
Theorem counters_count_calls (cs : list (Call num SearchFilter OptionValue)) s :
  let r := run' cs s in
  length r.1 = length cs /\
  calls (stats r.2) = calls (stats s) + Z.of_nat (length cs) /\
  (cacheResults (options s) = true ->
   cacheMisses (stats r.2) = cacheMisses (stats s) + Z.of_nat (backendCalls r.1) /\
   cacheHits (stats r.2) =
     cacheHits (stats s) + (Z.of_nat (length cs) - Z.of_nat (backendCalls r.1))) /\
  (cacheResults (options s) = false ->
   backendCalls r.1 = length cs /\
   cacheMisses (stats r.2) = cacheMisses (stats s) /\
   cacheHits (stats r.2) = cacheHits (stats s)).
Proof.
  revert s. induction cs as [|c cs IH]; intros s.
  - unfold backendCalls. simpl. repeat split; intros; lia.
  - cbv zeta. rewrite run_cons. simpl.
    pose proof (findNearest_counts (call_query c) (call_k c) (call_options c)
                  (call_elapsed c) s) as (Hcalls & Hon & Hoff).
    pose proof (findNearest_options (call_query c) (call_k c) (call_options c)
                  (call_elapsed c) s) as Hopt.
    fold (perform' c s) in Hcalls, Hon, Hoff, Hopt.
    destruct (IH (perform' c s).2) as (Hlen & Hcalls' & Hon' & Hoff').
    rewrite Hopt in Hon', Hoff'.
    unfold backendCalls in *. simpl. rewrite length_app.
    split; [by rewrite Hlen|]. split; [lia|]. split.
    + intros Hc. destruct (Hon Hc), (Hon' Hc). lia.
    + intros Hc. destruct (Hoff Hc) as (? & ? & ?), (Hoff' Hc) as (? & ? & ?). lia.
Qed.

Lemma findNearest_time query k o elapsed s :
  let r := findNearest' query k o elapsed s in
  (totalTime (stats r.2) == totalTime (stats s) + (if isReturn r.1 then elapsed else 0))%Q /\
  lastSearchTime (stats r.2) = (if isReturn r.1 then elapsed else lastSearchTime (stats s)).
Proof.
  intros r. subst r. unfold isReturn.
  destruct (findNearest_course query k o elapsed s)
    as [(stored & Hc & _ & ->) | [(e & d & _ & _ & ->) | (R & d & _ & _ & ->)]]; simpl.
  - split; [apply Qeq_refl|done].
  - destruct (cacheResults (options s)); simpl; (split; [|done]);
      by rewrite Qplus_0_r.
  - destruct (cacheResults (options s)); simpl; (split; [|done]); apply Qeq_refl.
Qed.

(** [totalTime] grows by the times measured by the calls that returned, and
    by nothing for a call that threw; [lastSearchTime] is the time of the
    last call that returned. *)
Theorem totalTime_sums_returned_calls (cs : list (Call num SearchFilter OptionValue)) s :
  let r := run' cs s in
  (totalTime (stats r.2) == totalTime (stats s) + returned_time cs r.1)%Q /\
  lastSearchTime (stats r.2) = last_returned_time (lastSearchTime (stats s)) cs r.1.
Proof.
  revert s. induction cs as [|c cs IH]; intros s.
  - simpl. split; [by rewrite Qplus_0_r|done].
  - cbv zeta. rewrite run_cons. simpl.
    pose proof (findNearest_time (call_query c) (call_k c) (call_options c)
                  (call_elapsed c) s) as (Htime & Hlast).
    fold (perform' c s) in Htime, Hlast.
    destruct (IH (perform' c s).2) as (Htime' & Hlast').
    split.
    + rewrite Htime', Htime. symmetry. apply Qplus_assoc.
    + by rewrite Hlast', Hlast.
Qed.

(** *** The cache in the states an engine reaches *)

Lemma lru_find_absent {V : Type} (k : string) (l : list (string * V)) :
  LRUCache.find k l = None <-> k ∉ l.*1.
Proof.
  induction l as [|[k' v'] l IH]; simpl.
  - split; [intros _; apply not_elem_of_nil|done].
  - rewrite not_elem_of_cons. case_decide; subst.
    + split; [done|]. by intros [? _].
    + rewrite IH. split; [by split|by intros [_ ?]].
Qed.


Lemma lru_remove_keys {V : Type} (k x : string) (l : list (string * V)) :
  x ∈ (LRUCache.remove k l).*1 <-> x ∈ l.*1 /\ x <> k.
Proof.
  induction l as [|[k' v'] l IH]; simpl.
  - split; [by intros ?%elem_of_nil|by intros [?%elem_of_nil _]].
  - case_decide; subst; simpl; rewrite ?elem_of_cons, IH.
    + split; [intros [? ?]; auto|intros [[?|?] ?]; [done|auto]].
    + split; [intros [->|[? ?]]; auto|intros [[?|?] ?]; auto].
Qed.

Lemma lru_remove_nodup {V : Type} (k : string) (l : list (string * V)) :
  NoDup l.*1 -> NoDup (LRUCache.remove k l).*1.
Proof.
  induction l as [|[k' v'] l IH]; simpl; [done|].
  rewrite NoDup_cons. intros [Hk' Hnd].
  case_decide; simpl; [auto|].
  apply NoDup_cons. split; [|auto].
  rewrite lru_remove_keys. by intros [? _].
Qed.

Lemma lru_removelast_keys {V : Type} (l : list (string * V)) :
  NoDup l.*1 ->
  NoDup (removelast l).*1 /\ forall x, x ∈ (removelast l).*1 -> x ∈ l.*1.
Proof.
  destruct l as [|e l _] using rev_ind; [by split|].
  rewrite removelast_last, fmap_app, NoDup_app. intros (Hnd & _ & _).
  split; [done|]. intros x Hx. apply elem_of_app. by left.
Qed.

Lemma lru_get_nodup {V : Type} (k : string) (c : LRUCache.t V) :
  NoDup (LRUCache.keys c) -> NoDup (LRUCache.keys (LRUCache.get k c).2).
Proof.
  unfold LRUCache.keys, LRUCache.get. intros Hnd.
  destruct (LRUCache.find k (LRUCache.entries c)); simpl; [|done].
  apply NoDup_cons. split; [|by apply lru_remove_nodup].
  rewrite lru_remove_keys. by intros [_ ?].
Qed.

Lemma lru_set_nodup {V : Type} (k : string) (v : V) (c : LRUCache.t V) :
  NoDup (LRUCache.keys c) -> NoDup (LRUCache.keys (LRUCache.set k v c)).
Proof.
  unfold LRUCache.keys, LRUCache.set. intros Hnd.
  destruct (LRUCache.find k (LRUCache.entries c)) eqn:Hf; simpl.
  - apply NoDup_cons. split; [|by apply lru_remove_nodup].
    rewrite lru_remove_keys. by intros [_ ?].
  - apply lru_find_absent in Hf.
    case_decide; simpl; apply NoDup_cons; (split; [|]); try done.
    + intros Hin. by apply lru_removelast_keys in Hin.
    + by apply lru_removelast_keys.
Qed.

Lemma lru_set_size_step {V : Type} (k : string) (v : V) (c : LRUCache.t V) :
  (LRUCache.size (LRUCache.set k v c) <= S (LRUCache.size c))%nat.
Proof.
  unfold LRUCache.set, LRUCache.size.
  destruct (LRUCache.find k (LRUCache.entries c)) as [w|] eqn:Hf; simpl.
  - apply lru_remove_length_found in Hf. lia.
  - case_decide; simpl; [|lia]. rewrite lru_removelast_length. lia.
Qed.

Lemma findNearest_wellformed query k o elapsed s :
  (0 < LRUCache.max (resultCache s))%nat ->
  cache_wellformed s -> cache_wellformed (findNearest' query k o elapsed s).2.
Proof.
  intros Hpos (Halloc & Hnd & Hsize & Hmiss).
  pose proof (findNearest_apart query k o elapsed s [] (conj Halloc (Forall_nil_2 _)))
    as [Halloc' _].
  pose proof (findNearest_cache_size query k o elapsed s Hpos Hsize) as Hsize'.
  pose proof (findNearest_cache_max query k o elapsed s) as Hmax.
  split; [done|]. split; [|split; [lia|]].
  - destruct (findNearest_course query k o elapsed s)
      as [(stored & Hc & _ & ->) | [(e & d & _ & _ & ->) | (R & d & _ & _ & ->)]]; simpl.
    + by apply lru_get_nodup.
    + done.
    + destruct (cacheResults (options s)); [by apply lru_set_nodup|done].
  - destruct (findNearest_course query k o elapsed s)
      as [(stored & Hc & _ & ->) | [(e & d & _ & _ & ->) | (R & d & _ & _ & ->)]]; simpl.
    + pose proof (lru_get_size (key' (options s) (typedQuery fround query) k o) (resultCache s)).
      lia.
    + destruct (cacheResults (options s)); simpl; lia.
    + destruct (cacheResults (options s)); simpl; [|lia].
      pose proof (lru_set_size_step (V := loc) (key' (options s) (typedQuery fround query) k o)
                    (S (length (heap s))) (resultCache s)).
      unfold loc in *. lia.
Qed.

Lemma clearCache_wellformed s : cache_wellformed s -> cache_wellformed (clearCache s).
Proof.
  intros (Halloc & Hnd & Hsize & Hmiss).
  unfold cache_wellformed, cache_allocated, clearCache, LRUCache.size, LRUCache.keys,
    LRUCache.values. simpl.
  split; [apply Forall_nil_2|]. split; [apply NoDup_nil_2|]. split; lia.
Qed.

Lemma session_cons r (rs : list (Request num SearchFilter OptionValue)) s :
  (session fround toFixed filter_toString db_findNearest (r :: rs) s).2 =
  (session fround toFixed filter_toString db_findNearest rs
     (serve fround toFixed filter_toString db_findNearest r s).2).2.
Proof.
  simpl. destruct (serve _ _ _ _ r s) as [out s1]. simpl.
  by destruct (session _ _ _ _ rs s1).
Qed.

Lemma serve_state (r : Request num SearchFilter OptionValue) s :
  (serve fround toFixed filter_toString db_findNearest r s).2 =
  match r with
  | DoFindNearest c => (perform' c s).2
  | DoClearCache | DoClose => clearCache s
  end.
Proof. destruct r as [c| |]; simpl; [|done..]. by destruct (perform' c s). Qed.

Lemma session_wellformed (rs : list (Request num SearchFilter OptionValue)) s :
  (0 < LRUCache.max (resultCache s))%nat ->
  cache_wellformed s ->
  let s' := (session fround toFixed filter_toString db_findNearest rs s).2 in
  options s' = options s /\
  LRUCache.max (resultCache s') = LRUCache.max (resultCache s) /\
  cache_wellformed s'.
Proof.
  revert s. induction rs as [|r rs IH]; intros s Hpos Hwf; [done|].
  cbv zeta. rewrite session_cons, serve_state.
  destruct r as [c| |].
  - unfold perform.
    pose proof (findNearest_options (call_query c) (call_k c) (call_options c)
                  (call_elapsed c) s) as Hopt.
    pose proof (findNearest_cache_max (call_query c) (call_k c) (call_options c)
                  (call_elapsed c) s) as Hmax.
    rewrite <- Hopt, <- Hmax. apply IH; [lia|].
    by apply findNearest_wellformed.
  - apply (IH (clearCache s)); [done|]. by apply clearCache_wellformed.
  - apply (IH (clearCache s)); [done|]. by apply clearCache_wellformed.
Qed.

(** Whatever sequence of [findNearest], [clearCache] and [close] a new
    engine serves: its options are those it was built with, its cache has
    capacity 1000, refers to allocated arrays only, stores no key twice, and
    [getStats] reports at most 1000 cached results and never more cached
    results than misses. *)
Theorem reachable_cache_wellformed (rs : list (Request num SearchFilter OptionValue))
    (d : DB) given :
  let s0 : State' := constructor d given in
  let s := (session fround toFixed filter_toString db_findNearest rs s0).2 in
  snap_options (getStats s) = options s0 /\
  LRUCache.max (resultCache s) = 1000%nat /\
  cache_allocated s /\
  NoDup (LRUCache.keys (resultCache s)) /\
  (cachedResultsCount (getStats s) <= 1000)%nat /\
  Z.of_nat (cachedResultsCount (getStats s)) <= snap_cacheMisses (getStats s).
Proof.
  intros s0 s.
  assert (cache_wellformed s0) as Hwf0.
  { unfold cache_wellformed, cache_allocated, LRUCache.size, LRUCache.keys, LRUCache.values.
    simpl. split; [apply Forall_nil_2|]. split; [apply NoDup_nil_2|]. split; lia. }
  destruct (session_wellformed rs s0) as (Hopt & Hmax & Halloc & Hnd & Hsize & Hmiss);
    [simpl; lia|done|].
  fold s in Hopt, Hmax, Halloc, Hnd, Hsize, Hmiss.
  simpl in *. rewrite Hmax in Hsize. auto 10.
Qed.

(** *** Arrays are added, never changed *)

Lemma findNearest_heap_prefix query k o elapsed s :
  heap s `prefix_of` heap (findNearest' query k o elapsed s).2.
Proof.
  destruct (findNearest_course query k o elapsed s)
    as [(stored & Hc & _ & ->) | [(e & d & _ & _ & ->) | (R & d & _ & _ & ->)]]; simpl.
  - by apply prefix_app_r.
  - done.
  - destruct (cacheResults (options s)); [do 2 apply prefix_app_r|apply prefix_app_r]; done.
Qed.

(** No sequence of [findNearest], [clearCache] and [close] changes an array
    that exists: the arrays that earlier calls returned keep their elements
    (unless their holder changes them). *)
Theorem arrays_are_only_added (rs : list (Request num SearchFilter OptionValue)) s :
  let s' := (session fround toFixed filter_toString db_findNearest rs s).2 in
  heap s `prefix_of` heap s' /\
  forall l, (l < length (heap s))%nat -> read (heap s') l = read (heap s) l.
Proof.
  cbv zeta.
  assert (heap s `prefix_of`
          heap (session fround toFixed filter_toString db_findNearest rs s).2) as Hpre.
  { revert s. induction rs as [|r rs IH]; intros s; [done|].
    rewrite session_cons, serve_state. etrans; [|apply IH].
    destruct r as [c| |]; [apply findNearest_heap_prefix|done..]. }
  split; [done|]. intros l Hl. unfold read.
  destruct (lookup_lt_is_Some_2 (heap s) l Hl) as [a Ha].
  pose proof (prefix_lookup_Some _ _ _ _ Ha Hpre) as Ha'.
  transitivity (default [] (Some a)); [f_equal; exact Ha'|f_equal; symmetry; exact Ha].
Qed.

Lemma call_trace_of_hit query k o elapsed s stored :
  cacheResults (options s) = true ->
  LRUCache.find (key' (options s) (typedQuery fround query) k o)
    (LRUCache.entries (resultCache s)) = Some stored ->
  trace (findNearest' query k o elapsed s).1 = hit_trace.
Proof.
  intros Hc Hf. unfold findNearest. rewrite Hc. unfold LRUCache.get. by rewrite Hf.
Qed.

(** *** Calls that follow one another *)

Lemma lru_get_find_same {V : Type} (k : string) (v : V) (c : LRUCache.t V) :
  LRUCache.find k (LRUCache.entries c) = Some v ->
  LRUCache.find k (LRUCache.entries (LRUCache.get k c).2) = Some v.
Proof. intros Hf. unfold LRUCache.get. rewrite Hf. simpl. by rewrite decide_True. Qed.

(** After a call that returned, with caching enabled, a call with the same
    key is a hit with the same elements. *)
Lemma same_key_hits query k o e1 query2 k2 o2 e2 s ret :
  cacheResults (options s) = true ->
  cache_allocated s ->
  key' (options s) (typedQuery fround query2) k2 o2 =
  key' (options s) (typedQuery fround query) k o ->
  result (findNearest' query k o e1 s).1 = Return ret ->
  let first := findNearest' query k o e1 s in
  let second := findNearest' query2 k2 o2 e2 first.2 in
  dbCalls (trace second.1) = [] /\
  returned second.1 second.2 = returned first.1 first.2 /\
  db second.2 = db first.2 /\
  result second.1 <> result first.1.
Proof.
  intros Hc Halloc Hkey Hret first second.
  assert (Hlt : forall l, l ∈ LRUCache.values (resultCache s) -> (l < length (heap s))%nat).
  { intros l Hl. unfold cache_allocated in Halloc. rewrite Forall_forall in Halloc. auto. }
  assert (exists stored,
    LRUCache.find (key' (options s) (typedQuery fround query) k o)
      (LRUCache.entries (resultCache first.2)) = Some stored /\
    (length (heap s) < length (heap first.2))%nat /\
    (stored < length (heap first.2))%nat /\
    result first.1 = Return (length (heap s)) /\
    read (heap first.2) stored = read (heap first.2) (length (heap s)))
    as (stored & Hstored & Hgrow & Hin & Hres & Hsame).
  { subst first.
    destruct (findNearest_course query k o e1 s)
      as [(stored & _ & Hf & Heq) | [(e & d & _ & _ & Heq) | (R & d & _ & _ & Heq)]];
      rewrite Heq in *; simpl in *.
    - exists stored. split; [by apply lru_get_find_same|].
      rewrite length_app. simpl.
      assert (stored < length (heap s))%nat by (apply Hlt; by eapply lru_find_value).
      split; [lia|]. split; [lia|]. split; [done|].
      by rewrite read_new, read_old.
    - discriminate Hret.
    - rewrite Hc. simpl. exists (S (length (heap s))). split; [apply lru_set_find|].
      rewrite !length_app. simpl. split; [lia|]. split; [lia|]. split; [done|].
      rewrite (read_old (heap s ++ [R]) R (length (heap s))) by (rewrite length_app; simpl; lia).
      rewrite read_new.
      apply read_new_at. rewrite length_app. simpl. lia. }
  assert (options first.2 = options s) as Hopt by apply findNearest_options.
  destruct (findNearest_hit query2 k2 o2 e2 first.2 stored)
    as (Hres2 & Hno & Hheap2 & Hdb2 & _ & _).
  { by rewrite Hopt. }
  { by rewrite Hopt, Hkey. }
  fold second in Hres2, Hno, Hheap2, Hdb2.
  split; [done|]. split; [|split; [done|]].
  - unfold returned. rewrite Hres2, Hres, Hheap2, read_new.
    by rewrite Hsame.
  - rewrite Hres2, Hres. intros [= Heq]. lia.
Qed.

(** Repeating a call that returned, with caching enabled: the repeat does
    not call the database and returns another array with the same elements,
    whatever was in the cache before. *)
Theorem repeated_call_hits query k o e1 e2 s ret :
  cacheResults (options s) = true ->
  cache_allocated s ->
  result (findNearest' query k o e1 s).1 = Return ret ->
  let first := findNearest' query k o e1 s in
  let second := findNearest' query k o e2 first.2 in
  dbCalls (trace second.1) = [] /\
  returned second.1 second.2 = returned first.1 first.2 /\
  db second.2 = db first.2 /\
  result second.1 <> result first.1.
Proof.
  intros Hc Halloc Hret.
  exact (same_key_hits query k o e1 query k o e2 s ret Hc Halloc eq_refl Hret).
Qed.

(** The key sees a query through [toFixed(4)] only: when the numbers of two
    queries, as a Float32Array holds them, are written alike with four
    decimals, the call with the second query, after the call with the first
    has returned, does not call the database and returns what the first call
    returned. *)
Theorem rounded_queries_share_result query query2 k o e1 e2 s ret :
  cacheResults (options s) = true ->
  cache_allocated s ->
  toFixed 4 <$> typedQuery fround query2 = toFixed 4 <$> typedQuery fround query ->
  result (findNearest' query k o e1 s).1 = Return ret ->
  let first := findNearest' query k o e1 s in
  let second := findNearest' query2 k o e2 first.2 in
  key' (options s) (typedQuery fround query2) k o =
  key' (options s) (typedQuery fround query) k o /\
  dbCalls (trace second.1) = [] /\
  returned second.1 second.2 = returned first.1 first.2.
Proof.
  intros Hc Halloc Hfmt Hret first second.
  assert (key' (options s) (typedQuery fround query2) k o =
          key' (options s) (typedQuery fround query) k o) as Hkey.
  { unfold _getCacheKey, queryHash. by rewrite Hfmt. }
  split; [done|].
  destruct (same_key_hits query k o e1 query2 k o e2 s ret Hc Halloc Hkey Hret)
    as (Hno & Hsame & _).
  by split.
Qed.

(** A hit does not look at the database: in whatever state the database is,
    also one in which it would reject the call, the call returns the cached
    elements and leaves the database in that state. *)
Theorem hit_ignores_database query k o elapsed s stored (d' : DB) :
  cacheResults (options s) = true ->
  LRUCache.find (key' (options s) (typedQuery fround query) k o)
    (LRUCache.entries (resultCache s)) = Some stored ->
  let r := findNearest' query k o elapsed (with_db d' s) in
  r.1 = (findNearest' query k o elapsed s).1 /\
  returned r.1 r.2 = Some (read (heap s) stored) /\
  dbCalls (trace r.1) = [] /\
  db r.2 = d'.
Proof.
  intros Hc Hf r.
  destruct (findNearest_hit query k o elapsed s stored Hc Hf)
    as (Hres & Hno & Hheap & _).
  destruct (findNearest_hit query k o elapsed (with_db d' s) stored Hc Hf)
    as (Hres' & Hno' & Hheap' & Hdb' & _).
  fold r in Hres', Hno', Hheap', Hdb'. simpl in *.
  split; [|split; [|by split]].
  - destruct r.1 as [res tr] eqn:Hr1.
    destruct (findNearest' query k o elapsed s).1 as [res0 tr0] eqn:Hr0. simpl in *.
    f_equal; [congruence|].
    pose proof (call_trace_of_hit query k o elapsed s stored Hc Hf) as Ht0.
    pose proof (call_trace_of_hit query k o elapsed (with_db d' s) stored Hc Hf) as Ht.
    fold r in Ht. rewrite Hr1 in Ht. rewrite Hr0 in Ht0. simpl in *. congruence.
  - unfold returned. by rewrite Hres', Hheap', read_new.
Qed.

(** A failed call leaves nothing behind that would answer the next one: the
    same call again calls the database again, in the state the failure left
    it in, and returns what the database answers then. *)
Theorem failed_call_is_retried query k o e1 e2 s (err : Error) d1 :
  (cacheResults (options s) = true ->
   LRUCache.find (key' (options s) (typedQuery fround query) k o)
     (LRUCache.entries (resultCache s)) = None) ->
  db_findNearest (typedQuery fround query) k (dbOptions (options s) o) (db s) = (inl err, d1) ->
  let first := findNearest' query k o e1 s in
  let second := findNearest' query k o e2 first.2 in
  result first.1 = Throw err /\
  db first.2 = d1 /\
  dbCalls (trace second.1) = [(typedQuery fround query, k, dbOptions (options s) o)] /\
  (forall R d2,
     db_findNearest (typedQuery fround query) k (dbOptions (options s) o) d1 = (inr R, d2) ->
     returned second.1 second.2 = Some R /\ db second.2 = d2).
Proof.
  intros Hmiss Hdb first second.
  assert (first.1 = {| result := Throw err;
                       trace := failure_trace (typedQuery fround query) k
                                  (dbOptions (options s) o) err |} /\
          options first.2 = options s /\ resultCache first.2 = resultCache s /\
          db first.2 = d1 /\ heap first.2 = heap s) as (Hout & Hopt & Hcache & Hd & Hheap).
  { subst first.
    destruct (findNearest_course query k o e1 s)
      as [(stored & Hc & Hf & _) | [(e & d & _ & Hdb' & ->) | (R & d & _ & Hdb' & _)]].
    - rewrite (Hmiss Hc) in Hf. discriminate Hf.
    - rewrite Hdb in Hdb'. injection Hdb' as <- <-. simpl. auto.
    - rewrite Hdb in Hdb'. discriminate Hdb'. }
  assert (cacheResults (options first.2) = true ->
          LRUCache.find (key' (options first.2) (typedQuery fround query) k o)
            (LRUCache.entries (resultCache first.2)) = None) as Hmiss'.
  { rewrite Hopt, Hcache. exact Hmiss. }
  split; [by rewrite Hout|]. split; [done|]. split.
  - subst second. rewrite <- Hopt. by apply findNearest_miss_dbCalls.
  - intros R d2 Hdb2. subst second.
    destruct (findNearest_course query k o e2 first.2)
      as [(stored & Hc & Hf & _) | [(e & d & _ & Hdb' & _) | (R' & d & _ & Hdb' & ->)]].
    + rewrite (Hmiss' Hc) in Hf. discriminate Hf.
    + rewrite Hopt, Hd, Hdb2 in Hdb'. discriminate Hdb'.
    + rewrite Hopt, Hd, Hdb2 in Hdb'. injection Hdb' as <- <-.
      unfold returned. simpl. split; [|done]. f_equal.
      destruct (cacheResults (options first.2)).
      * rewrite read_old by (rewrite length_app; simpl; lia). apply read_new.
      * apply read_new.
Qed.

(** *** The order in which entries leave the cache *)

Lemma lru_remove_length_nodup {V : Type} (k : string) (v : V) (l : list (string * V)) :
  NoDup l.*1 -> LRUCache.find k l = Some v ->
  S (length (LRUCache.remove k l)) = length l.
Proof.
  induction l as [|[k' v'] l IH]; simpl; [discriminate|].
  rewrite NoDup_cons. intros [Hk' Hnd]. case_decide; subst.
  - intros _. f_equal.
    clear IH Hnd. induction l as [|[k0 v0] l IH]; simpl; [done|].
    apply not_elem_of_cons in Hk' as [Hne Hk'].
    rewrite decide_False by done. simpl. f_equal. auto.
  - intros Hf. simpl. f_equal. auto.
Qed.

(** A hit changes the order of the cache and nothing else: the entry hit is
    now the most recently used, every key is cached with the array it had,
    and as many entries are cached as before. *)
Theorem hit_makes_entry_most_recent query k o elapsed s stored :
  cacheResults (options s) = true ->
  NoDup (LRUCache.keys (resultCache s)) ->
  LRUCache.find (key' (options s) (typedQuery fround query) k o)
    (LRUCache.entries (resultCache s)) = Some stored ->
  let s' := (findNearest' query k o elapsed s).2 in
  head (LRUCache.entries (resultCache s')) =
    Some (key' (options s) (typedQuery fround query) k o, stored) /\
  (forall other, LRUCache.find other (LRUCache.entries (resultCache s')) =
                 LRUCache.find other (LRUCache.entries (resultCache s))) /\
  LRUCache.size (resultCache s') = LRUCache.size (resultCache s).
Proof.
  intros Hc Hnd Hf s'.
  destruct (findNearest_hit query k o elapsed s stored Hc Hf) as (_ & _ & _ & _ & _ & Hcache).
  fold s' in Hcache. rewrite Hcache. unfold LRUCache.get, LRUCache.size. rewrite Hf. simpl.
  split; [done|]. split.
  - intros other. case_decide; [by subst|].
    apply lru_find_remove_other. congruence.
  - by apply (lru_remove_length_nodup _ stored).
Qed.


(** *** What touches the database *)

Lemma findNearest_quiet_db query k o elapsed s :
  dbCalls (trace (findNearest' query k o elapsed s).1) = [] ->
  db (findNearest' query k o elapsed s).2 = db s.
Proof.
  destruct (findNearest_course query k o elapsed s)
    as [(stored & _ & _ & ->) | [(e & d & _ & _ & ->) | (R & d & _ & _ & ->)]]; simpl;
    [done|discriminate..].
Qed.

(** The database is touched by the calls of [findNearest] that call it, and
    by nothing else: hits, [clearCache] and [close] leave it in its state. *)
Theorem database_only_touched_by_misses (rs : list (Request num SearchFilter OptionValue)) s :
  quiet (session fround toFixed filter_toString db_findNearest rs s).1 ->
  db (session fround toFixed filter_toString db_findNearest rs s).2 = db s.
Proof.
  revert s. induction rs as [|r rs IH]; intros s; [done|].
  simpl. destruct r as [c| |]; simpl.
  - unfold perform.
    pose proof (findNearest_quiet_db (call_query c) (call_k c) (call_options c)
                  (call_elapsed c) s) as Hstep.
    destruct (findNearest' _ _ _ _ s) as [out s1]. simpl in *.
    specialize (IH s1). destruct (session _ _ _ _ rs s1) as [outs s2]. simpl in *.
    intros [Hout Houts]%Forall_cons. rewrite IH by done. auto.
  - specialize (IH (clearCache s)).
    destruct (session _ _ _ _ rs (clearCache s)) as [outs s2]. simpl in *.
    intros [_ Houts]%Forall_cons. by rewrite IH.
  - specialize (IH (clearCache s)). unfold close.
    destruct (session _ _ _ _ rs (clearCache s)) as [outs s2]. simpl in *.
    intros [_ Houts]%Forall_cons. by rewrite IH.
Qed.

(** *** The filter in the key *)

(** For calls that agree in everything but the filter, the keys are equal
    exactly when both calls have no filter, or both have one and the texts of
    the two filters have the same length. *)
Theorem key_tells_filters_by_length cfg (q : list num) k o1 o2 :
  probes o1 = probes o2 ->
  key' cfg q k o1 = key' cfg q k o2 <->
  match filter o1, filter o2 with
  | None, None => True
  | Some f1, Some f2 =>
      String.length (filter_toString f1) = String.length (filter_toString f2)
  | _, _ => False
  end.
Proof.
  intros Hp.
  assert (probesInfo o1 = probesInfo o2) as Hpi by (unfold probesInfo; by rewrite Hp).
  unfold _getCacheKey, filterInfo. rewrite Hpi. split.
  - intros Heq. do 6 apply string_app_inv_head in Heq.
    destruct (filter o1) as [f1|], (filter o2) as [f2|].
    + apply (string_app_inv_tail ("_" +:+ probesInfo o2)) in Heq.
      apply string_app_inv_head in Heq.
      by apply (inj pretty) in Heq.
    + discriminate Heq.
    + discriminate Heq.
    + done.
  - destruct (filter o1) as [f1|], (filter o2) as [f2|]; try done.
    by intros ->.
Qed.

End Properties.

(** ** The theorems at work on the instance *)

Lemma miss_then_hit_witness :
  let first := Demo.findNearest Demo.Q1 5 Demo.plain (3 # 2) Demo.new_engine in
  let second := Demo.findNearest Demo.Q1 5 Demo.plain (1 # 2) first.2 in
  returned first.1 first.2 = Some (Demo.answer 5 (-1)) /\
  dbCalls (trace first.1) = [([1; 2; 3], 5, dbOptions defaults Demo.plain)] /\
  cacheHits (stats first.2) = 0 /\
  cacheMisses (stats first.2) = 1 /\
  returned second.1 second.2 = Some (Demo.answer 5 (-1)) /\
  dbCalls (trace second.1) = [] /\
  db second.2 = db first.2 /\
  cacheHits (stats second.2) = 1 /\
  cacheMisses (stats second.2) = 1 /\
  calls (stats second.2) = 2.
Proof.
  apply (miss_then_hit Demo.fround Demo.toFixed Demo.filter_toString Demo.db_findNearest
           Demo.Q1 5 Demo.plain (3 # 2) (1 # 2) Demo.new_engine (Demo.answer 5 (-1)) 1%nat).
  - reflexivity.
  - reflexivity.
  - simpl. lia.
  - reflexivity.
Defined.

Lemma stats_monotone_and_accounted_witness :
  let cs := [Demo.call 5 Demo.plain (3 # 2); Demo.call 5 Demo.plain (1 # 2);
             Demo.call 0 Demo.plain (1 # 4)] in
  Forall (fun c => (0 <= call_elapsed c)%Q) cs /\
  stats_le (stats Demo.new_engine) (stats (Demo.run cs Demo.new_engine).2) /\
  accounted (stats (Demo.run cs Demo.new_engine).2) /\
  stats (Demo.run cs Demo.new_engine).2 =
  {| calls := 3; totalTime := 8 # 4; lastSearchTime := 1 # 2; cacheHits := 1; cacheMisses := 2 |}.
Proof.
  intros cs.
  assert (Forall (fun c => (0 <= call_elapsed c)%Q) cs) as Hpos.
  { repeat constructor; unfold Qle; simpl; lia. }
  pose proof (stats_monotone_and_accounted Demo.fround Demo.toFixed Demo.filter_toString
                Demo.db_findNearest cs Demo.new_engine Hpos) as (Hle & Hacc & _).
  split; [exact Hpos|]. split; [exact Hle|]. split; [|reflexivity].
  exact (Hacc eq_refl eq_refl 3%nat).
Defined.

Lemma filter_fingerprint_by_length_witness :
  String.length (Demo.filter_toString "x>1") = String.length (Demo.filter_toString "y<2") /\
  Demo.getCacheKey defaults [1; 2; 3] 5 (Demo.with_filter "x>1") =
  Demo.getCacheKey defaults [1; 2; 3] 5 (Demo.with_filter "y<2") /\
  Demo.getCacheKey defaults [1; 2; 3] 5 (Demo.with_filter "x>1") =
  "1.0000,2.0000,3.0000_k5_euclidean_filterHash:3_" /\
  Demo.getCacheKey defaults [1; 2; 3] 5 (Demo.with_filter "x>10") =
  "1.0000,2.0000,3.0000_k5_euclidean_filterHash:4_" /\
  Demo.getCacheKey defaults [1; 2; 3] 5 Demo.plain =
  "1.0000,2.0000,3.0000_k5_euclidean_noFilter_" /\
  Demo.getCacheKey defaults [1; 2; 3] 5 (Demo.with_filter "x>1") <>
  Demo.getCacheKey defaults [1; 2; 3] 5 Demo.plain.
Proof.
  destruct (filter_fingerprint_by_length Demo.toFixed Demo.filter_toString
              (OptionValue := bool) defaults [1; 2; 3] 5)
    as (Hnone & Hsome & Hsame & _ & Hapart).
  split; [reflexivity|]. split; [|split; [|split; [|split]]].
  - apply (Hsame (Demo.with_filter "x>1") (Demo.with_filter "y<2") "x>1" "y<2");
      reflexivity.
  - exact (Hsome (Demo.with_filter "x>1") "x>1" eq_refl).
  - exact (Hsome (Demo.with_filter "x>10") "x>10" eq_refl).
  - exact (Hnone Demo.plain eq_refl).
  - intros Heq. symmetry in Heq. revert Heq.
    exact (Hapart Demo.plain (Demo.with_filter "x>1") "x>1" eq_refl eq_refl).
Defined.

Lemma backend_failure_propagated_witness :
  let r := Demo.findNearest Demo.Q1 0 Demo.plain (1 # 4) Demo.new_engine in
  (Demo.db_findNearest [1; 2; 3] 0 (dbOptions defaults Demo.plain) 0%nat).1
    = inl "k must be positive" /\
  result r.1 = Throw "k must be positive" /\
  resultCache r.2 = resultCache Demo.new_engine /\
  heap r.2 = heap Demo.new_engine /\
  dbCalls (trace r.1) = [([1; 2; 3], 0, dbOptions defaults Demo.plain)].
Proof.
  split; [reflexivity|].
  apply (backend_failure_propagated Demo.fround Demo.toFixed Demo.filter_toString
           Demo.db_findNearest Demo.Q1 0 Demo.plain (1 # 4) Demo.new_engine
           [1; 2; 3] 0 (dbOptions defaults Demo.plain) "k must be positive").
  - apply list_elem_of_here.
  - reflexivity.
Defined.

Lemma failed_miss_is_counted_witness :
  let r := Demo.findNearest Demo.Q1 0 Demo.plain (1 # 4) Demo.new_engine in
  result r.1 = Throw "k must be positive" /\
  calls (stats r.2) = 1 /\
  cacheMisses (stats r.2) = 1 /\
  totalTime (stats r.2) = 0%Q /\
  lastSearchTime (stats r.2) = 0%Q /\
  cacheHits (stats r.2) = 0.
Proof.
  apply (failed_miss_is_counted Demo.fround Demo.toFixed Demo.filter_toString
           Demo.db_findNearest Demo.Q1 0 Demo.plain (1 # 4) Demo.new_engine
           "k must be positive" 1%nat); reflexivity.
Defined.

Lemma backend_request_witness :
  dbCalls (trace (Demo.findNearest Demo.Q1 5 (Demo.with_probes 8) (1 # 4) Demo.new_engine).1) =
  [([1; 2; 3], 5,
    {| db_filter := None; db_distanceMetric := "euclidean"; db_probes := Some 8;
       db_others := [] |})].
Proof.
  apply (backend_request Demo.fround Demo.toFixed Demo.filter_toString Demo.db_findNearest
           Demo.Q1 5 (Demo.with_probes 8) (1 # 4) Demo.new_engine).
  intros _. reflexivity.
Defined.

(** C6 as stated fails: an option of the call other than the filter and the
    probes is not in the object the database is called with. *)
Lemma other_options_are_dropped :
  let out := (Demo.findNearest Demo.Q1 5 Demo.with_metadata (1 # 4) Demo.new_engine).1 in
  let req := {| db_filter := None; db_distanceMetric := "euclidean"; db_probes := None;
                db_others := [] |} in
  dbCalls (trace out) = [([1; 2; 3], 5, req)] /\
  ~ passes_all_options Demo.with_metadata req.
Proof.
  split; [reflexivity|].
  unfold passes_all_options. simpl. intros (_ & _ & Hothers). discriminate Hothers.
Qed.


Lemma copy_isolation_witness :
  cache_allocated Demo.new_engine /\
  (Demo.interact [Invoke (Demo.call 5 Demo.plain (3 # 2)); Mutate 0 [("forged", 0)];
                  Invoke (Demo.call 5 Demo.plain (1 # 2)); Mutate 1 [];
                  Invoke (Demo.call 5 Demo.plain (1 # 2))] [] Demo.new_engine).1 =
  [Some (Demo.answer 5 (-1)); Some (Demo.answer 5 (-1)); Some (Demo.answer 5 (-1))].
Proof.
  assert (cache_allocated Demo.new_engine) as Halloc by apply Forall_nil_2.
  split; [exact Halloc|].
  unfold Demo.interact.
  rewrite (proj1 (copy_isolation Demo.fround Demo.toFixed Demo.filter_toString
                    Demo.db_findNearest Demo.new_engine Halloc)).
  reflexivity.
Defined.

Lemma getStats_avgTime_witness :
  let s1 := (Demo.findNearest Demo.Q1 5 Demo.plain (3 # 2) Demo.new_engine).2 in
  calls (stats s1) > 0 /\
  avgTime (getStats s1) = (totalTime (stats s1) / inject_Z (calls (stats s1)))%Q /\
  avgTime (getStats Demo.new_engine) = 0%Q /\
  cachedResultsCount (getStats s1) = 1%nat.
Proof.
  intros s1.
  assert (calls (stats s1) > 0) as Hpos by (simpl; lia).
  split; [exact Hpos|]. split; [|split; [|reflexivity]].
  - exact (proj1 (getStats_avgTime s1) Hpos).
  - apply (proj1 (proj2 (getStats_avgTime Demo.new_engine))). simpl. lia.
Defined.

(** C3 at [probes: 0]. A call without [probes] and the same call with
    [probes: 0] have one key; so the second, after the first, is a hit: the
    database is not called, and the caller gets what the database answered
    without [probes], which is not what it answers with [probes: 0]. *)
Theorem probes_zero_reuses_cached_result :
  let first := Demo.findNearest Demo.Q1 5 Demo.plain (3 # 2) Demo.new_engine in
  let second := Demo.findNearest Demo.Q1 5 (Demo.with_probes 0) (1 # 2) first.2 in
  probes Demo.plain <> probes (Demo.with_probes 0) /\
  Demo.getCacheKey defaults [1; 2; 3] 5 Demo.plain =
  Demo.getCacheKey defaults [1; 2; 3] 5 (Demo.with_probes 0) /\
  dbCalls (trace second.1) = [] /\
  cacheHits (stats second.2) = 1 /\
  returned second.1 second.2 = Some (Demo.answer 5 (-1)) /\
  (Demo.db_findNearest [1; 2; 3] 5 (dbOptions defaults (Demo.with_probes 0)) (db first.2)).1
    = inr (Demo.answer 5 0).
Proof.
  intros first second. split; [discriminate|]. split.
  - apply (key_probes_zero Demo.toFixed Demo.filter_toString).
  - subst first second. repeat split; reflexivity.
Qed.

Lemma key_sensitivity_witness :
  Demo.getCacheKey defaults [1; 2; 3] 5 Demo.plain <>
  Demo.getCacheKey defaults [1; 2; 3] 6 Demo.plain /\
  Demo.getCacheKey defaults [1; 2; 3] 5 (Demo.with_probes 4) <>
  Demo.getCacheKey defaults [1; 2; 3] 5 (Demo.with_probes 8).
Proof.
  split.
  - apply (proj1 (key_sensitivity Demo.fround Demo.toFixed Demo.filter_toString
                    Demo.db_findNearest defaults [1; 2; 3] 5 Demo.plain)).
    lia.
  - apply (proj1 (proj2 (proj2 (key_sensitivity Demo.fround Demo.toFixed Demo.filter_toString
                    Demo.db_findNearest defaults [1; 2; 3] 5 (Demo.with_probes 4))))).
    + reflexivity.
    + discriminate.
    + intros [[H|H] _]; discriminate H.
Defined.

Lemma disabled_caching_witness :
  let s := constructor 0%nat {| given_metric := Some "cosine"; given_cacheResults := Some false |} in
  let r := Demo.run [Demo.call 5 Demo.plain (1 # 2); Demo.call 5 Demo.plain (1 # 2)] s in
  cacheResults (options s) = false /\
  dbCalls (trace (Demo.findNearest Demo.Q1 5 Demo.plain (1 # 2) s).1) =
    [([1; 2; 3], 5, dbOptions (options s) Demo.plain)] /\
  db r.2 = 2%nat /\ cacheHits (stats r.2) = 0.
Proof.
  intros s r. split; [reflexivity|]. split; [|split; reflexivity].
  apply (disabled_caching Demo.fround Demo.toFixed Demo.filter_toString Demo.db_findNearest
           Demo.Q1 5 Demo.plain (1 # 2) s).
  reflexivity.
Defined.

Lemma counters_count_calls_witness :
  let cs := [Demo.call 5 Demo.plain (3 # 2); Demo.call 5 Demo.plain (1 # 2);
             Demo.call 0 Demo.plain (1 # 4); Demo.call 6 Demo.plain (1 # 4)] in
  let r := Demo.run cs Demo.new_engine in
  cacheResults (options Demo.new_engine) = true /\
  backendCalls r.1 = 3%nat /\
  calls (stats r.2) = 4 /\ cacheMisses (stats r.2) = 3 /\ cacheHits (stats r.2) = 1.
Proof.
  intros cs r.
  destruct (counters_count_calls Demo.fround Demo.toFixed Demo.filter_toString
              Demo.db_findNearest cs Demo.new_engine) as (_ & Hcalls & Hon & _).
  destruct (Hon eq_refl) as [Hmiss Hhit].
  split; [reflexivity|]. split; [reflexivity|].
  split; [exact Hcalls|]. split; [exact Hmiss|exact Hhit].
Defined.

Lemma arrays_are_only_added_witness :
  let s1 := (Demo.findNearest Demo.Q1 5 Demo.plain (3 # 2) Demo.new_engine).2 in
  let s2 := (Demo.session [DoFindNearest (Demo.call 5 Demo.plain (1 # 2)); DoClearCache;
                           DoFindNearest (Demo.call 6 Demo.plain (1 # 2)); DoClose] s1).2 in
  (0 < length (heap s1))%nat /\ read (heap s2) 0%nat = Demo.answer 5 (-1).
Proof.
  intros s1 s2. split; [simpl; lia|].
  apply (proj2 (arrays_are_only_added Demo.fround Demo.toFixed Demo.filter_toString
                  Demo.db_findNearest
                  [DoFindNearest (Demo.call 5 Demo.plain (1 # 2)); DoClearCache;
                   DoFindNearest (Demo.call 6 Demo.plain (1 # 2)); DoClose] s1) 0%nat).
  simpl. lia.
Defined.

Lemma repeated_call_hits_witness :
  let first := Demo.findNearest Demo.Q1 7 (Demo.with_filter "x>1") (3 # 2) Demo.full_engine in
  let second := Demo.findNearest Demo.Q1 7 (Demo.with_filter "x>1") (1 # 2) first.2 in
  dbCalls (trace second.1) = [] /\
  returned second.1 second.2 = returned first.1 first.2 /\
  db second.2 = db first.2 /\
  result second.1 <> result first.1.
Proof.
  apply (repeated_call_hits Demo.fround Demo.toFixed Demo.filter_toString Demo.db_findNearest
           Demo.Q1 7 (Demo.with_filter "x>1") (3 # 2) (1 # 2) Demo.full_engine 4%nat).
  - reflexivity.
  - unfold cache_allocated. simpl. repeat constructor.
  - reflexivity.
Defined.

Lemma rounded_queries_share_result_witness :
  let first := Demo.findNearest Demo.Q1 5 Demo.plain (3 # 2) Demo.new_engine in
  let second := Demo.findNearest Demo.Q2 5 Demo.plain (1 # 2) first.2 in
  Demo.Q1 <> Demo.Q2 /\
  dbCalls (trace second.1) = [] /\
  returned second.1 second.2 = Some (Demo.answer 5 (-1)).
Proof.
  intros first second. split; [discriminate|].
  destruct (rounded_queries_share_result Demo.fround Demo.toFixed Demo.filter_toString
              Demo.db_findNearest Demo.Q1 Demo.Q2 5 Demo.plain (3 # 2) (1 # 2)
              Demo.new_engine 0%nat eq_refl (Forall_nil_2 _) eq_refl eq_refl)
    as (_ & Hno & Hsame).
  split; [exact Hno|exact Hsame].
Defined.

Lemma hit_ignores_database_witness :
  let s1 := (Demo.findNearest Demo.Q1 5 Demo.plain (3 # 2) Demo.new_engine).2 in
  let r := Demo.findNearest Demo.Q1 5 Demo.plain (1 # 2) (with_db 99%nat s1) in
  returned r.1 r.2 = Some (Demo.answer 5 (-1)) /\ dbCalls (trace r.1) = [] /\ db r.2 = 99%nat.
Proof.
  intros s1 r.
  destruct (hit_ignores_database Demo.fround Demo.toFixed Demo.filter_toString
              Demo.db_findNearest Demo.Q1 5 Demo.plain (1 # 2) s1 1%nat 99%nat
              eq_refl eq_refl) as (_ & Hret & Hno & Hdb).
  split; [exact Hret|]. split; [exact Hno|exact Hdb].
Defined.

Lemma failed_call_is_retried_witness :
  let first := Demo.findNearest_flaky Demo.Q1 5 Demo.plain (3 # 2) Demo.new_engine in
  let second := Demo.findNearest_flaky Demo.Q1 5 Demo.plain (1 # 2) first.2 in
  result first.1 = Throw "not ready" /\
  dbCalls (trace second.1) = [([1; 2; 3], 5, dbOptions defaults Demo.plain)] /\
  returned second.1 second.2 = Some [("doc", 5)] /\
  db second.2 = 2%nat.
Proof.
  intros first second.
  destruct (failed_call_is_retried Demo.fround Demo.toFixed Demo.filter_toString
              Demo.flaky_db Demo.Q1 5 Demo.plain (3 # 2) (1 # 2) Demo.new_engine
              "not ready" 1%nat (fun _ => eq_refl) eq_refl)
    as (Hthrow & _ & Hcalled & Hanswer).
  destruct (Hanswer [("doc", 5)] 2%nat eq_refl) as [Hret Hdb].
  split; [exact Hthrow|]. split; [exact Hcalled|]. split; [exact Hret|exact Hdb].
Defined.

Lemma hit_makes_entry_most_recent_witness :
  let s' := (Demo.findNearest Demo.Q1 6 Demo.plain (1 # 2) Demo.full_engine).2 in
  LRUCache.keys (resultCache Demo.full_engine) =
    [Demo.getCacheKey defaults [1; 2; 3] 7 Demo.plain;
     Demo.getCacheKey defaults [1; 2; 3] 6 Demo.plain] /\
  head (LRUCache.entries (resultCache s')) =
    Some (Demo.getCacheKey defaults [1; 2; 3] 6 Demo.plain, 1%nat) /\
  LRUCache.size (resultCache s') = 2%nat.
Proof.
  intros s'. split; [reflexivity|].
  destruct (hit_makes_entry_most_recent Demo.fround Demo.toFixed Demo.filter_toString
              Demo.db_findNearest Demo.Q1 6 Demo.plain (1 # 2) Demo.full_engine 1%nat)
    as (Hhead & _ & Hsize).
  - reflexivity.
  - simpl. repeat constructor; rewrite ?elem_of_cons, ?elem_of_nil; intros H;
      repeat destruct H as [H|H]; try discriminate H; exact H.
  - reflexivity.
  - split; [exact Hhead|exact Hsize].
Defined.


Lemma database_only_touched_by_misses_witness :
  let s1 := (Demo.findNearest Demo.Q1 5 Demo.plain (3 # 2) Demo.new_engine).2 in
  let r := Demo.session [DoFindNearest (Demo.call 5 Demo.plain (1 # 2)); DoClearCache;
                         DoClose] s1 in
  quiet r.1 /\ db r.2 = 1%nat.
Proof.
  intros s1 r.
  assert (quiet r.1) as Hquiet by (repeat constructor).
  split; [exact Hquiet|].
  exact (database_only_touched_by_misses Demo.fround Demo.toFixed Demo.filter_toString
           Demo.db_findNearest _ s1 Hquiet).
Defined.

Lemma key_tells_filters_by_length_witness :
  Demo.getCacheKey defaults [1; 2; 3] 5 (Demo.with_filter "x>1") <>
  Demo.getCacheKey defaults [1; 2; 3] 5 (Demo.with_filter "x>10") /\
  Demo.getCacheKey defaults [1; 2; 3] 5 (Demo.with_filter "x>1") <>
  Demo.getCacheKey defaults [1; 2; 3] 5 Demo.plain.
Proof.
  split; intros Heq.
  - apply (key_tells_filters_by_length Demo.toFixed Demo.filter_toString defaults [1; 2; 3] 5
             (Demo.with_filter "x>1") (Demo.with_filter "x>10") eq_refl) in Heq.
    discriminate Heq.
  - apply (key_tells_filters_by_length Demo.toFixed Demo.filter_toString defaults [1; 2; 3] 5
             (Demo.with_filter "x>1") Demo.plain eq_refl) in Heq.
    exact Heq.
Defined.
